(* ===== verification/_CoqProject ===== *)
-Q . S2P
Prelude.v
GoStrings.v
GoFloat.v
Flags.v
Matcher.v
Headers.v
Tables.v
Substitute.v
Loaders.v
Driver.v
