(* ===== verification/Prelude.v ===== *)
(** * A verification development of seh-msft/correlator

    The program ([src/correlator.go], one Go file) correlates a Burp Suite
    history of HTTP requests with the paths of OpenAPI specifications and
    rewrites the matched requests for replay against another deployment:
    identifier values of a "from" database are replaced by those of a "to"
    database, and the credential headers are replaced or stripped.

    ** Parts of the program and where they are modelled

    - [Prelude] (this file): the outcome type [res] of every fallible
      operation ([Ok], [Fatal r] for a call of [fatal] at a given site,
      [Panic p] for a Go runtime panic), with stdpp's monad notation; Go
      slicing on byte strings ([s.[: i]], [s.[i :]]); the predicate
      [no_panic]; the hint databases [corr] and [corr_rw], the tactic
      [res_inv] and the shared lemmas.
    - [GoStrings]: the [strings] functions the code calls (HasPrefix,
      HasSuffix, Index, Split, Replace with n = 1, ReplaceAll), after the
      Go library, with [ReplaceAll]'s loop on fuel [len s + 1], shown to be
      enough ([replace_all_go_fuel_eq]).
    - [GoFloat]: Go's [float64] division, multiplication and [int64]
      truncation, exactly, on the Standard Library's [SpecFloat] binary64.
    - [Flags]: the flag variables (lines 27-41) as the record [flags],
      passed explicitly instead of read from globals.
    - [Matcher]: [match] (lines 293-323), PathMatcher of the spec, with
      the range of its float percentage [delta].
    - [Headers]: [subLine] and [stripLines] (lines 238-291),
      HeaderRewriter of the spec; [stripLines]' cut loop is modelled with
      the shrinking slice and the out-of-range panic of [lines[i+1:]].
    - [Tables]: [compose], [flip], [left2right], [right2left] (lines
      325-348, 411-437), TranslationComposer of the spec.  Go's map
      iteration order is the interface [MapIter] with the law [MapIterOk]
      (each entry once): theorems hold for every order.
    - [Substitute]: [substitute] (lines 350-393), SubstitutionEngine of the
      spec, over the interface [UrlParser]/[UrlParserOk] for [net/url].
    - [Loaders]: the opening and parsing of the inputs (lines 63-76,
      90-98 and [ingestDb], lines 397-409), each failure its own [fatal];
      [os.Open], [openapi.Parse], [burpxml.Parse] and [cfg.Load] are the
      fields of the library record [world], as is the success of the
      JSON encoder ([encode]).
    - [Driver]: [main] (lines 43-236), CorrelationDriver of the spec:
      [correlate] runs the argument checks, the loading, the match phase
      and the substitution phase over the key order [KeyIter] of
      [range matches] (lines 44-210); [emit] is the emit phase (lines
      214-225) and [replay] the unimplemented replay (lines 229-233);
      [main_phases] and [main] compose them as the code does.

    Components interact as in the code: [Driver] calls [substitute] with
    [left2right] as the replacer (first with [from], then with
    [compose from to]), [match_] for each API path, and [subLine] /
    [stripLines] on the request text.

    ** What the theorems show (claims C1-C34 of PROJECT.json)

    - Normalisation and occurrence (C1, C34): the match phase normalises
      a Burp path with [left2right], which replaces names by values, so a
      path whose segments hold no name of [from] is matched as captured
      (C1: on the spec's own scenario nothing is correlated), and every
      recorded hit is a literal occurrence of the API path in the
      normalised Burp path (C34).
    - Matching (C2-C5, C10-C13): [match] is characterised exactly;
      suffixes always match, absent paths never; the threshold is
      monotone; within an API the first matching path wins; the float
      percentage lies in [0, 100] and is the exact truncated one or one
      more (exhaustive check for Burp paths up to 256 bytes, about 30 s of
      [vm_compute]).  Against the spec, on every path of at most 256
      bytes: the default threshold 100 accepts any occurrence surrounded
      by under 1% of the path (C12), and the percentage is one above the
      spec's rounded value whenever the fraction is at least one half
      (C13).
    - Headers (C6, C15, C30, C33): [stripLines] is right when at most one
      line is cut (C6); it panics exactly when the [k]-th cut index
      reaches the length minus [k] (C30), as on the spec's example;
      otherwise the [k]-th cut deletes line [i_k + k] instead of [i_k]
      (C33), so with several header lines a cookie stays in place and an
      unrelated line is lost; [subLine] appends one terminator per call
      (C15).
    - Tables (C7, C17, C18, C31, C32): [compose] is the relational join
      for injective databases in every iteration order (C7), equal to
      stdpp's map composition with the inverted table [flip] (C31); in
      general the last entry visited wins (C17), so with shared values
      the result depends on Go's iteration order; [left2right] is the
      identity on texts without keys (C18) and order-independent when
      one key is present (C32).
    - Substitution (C8, C19-C21): segment-local rewriting, the path round
      trip (the leading ["/"] is kept), the body handling, and the loss of
      the query string.
    - Driver (C9, C14, C16, C22-C29): the match phase records exactly the
      items with hits, one pair per matching API, and keeps the state well
      formed at every iteration (C28); a run refines the contract
      [correlated] of the spec's [Correlate]: it emits exactly the matched
      items, each rewritten once, reports their number and under [-json]
      encodes exactly these items (C16); path totals; the key order only
      permutes the output (C24); without [-omitauth] no old credential
      reaches the rewritten request (C27) and no run panics, whatever the
      file system and parsers return (C29); [-omitauth -replay] is always
      rejected (C25); the encoder's fatal comes only after the
      substitution phase, under [-json], when [enc.Encode] fails (C14);
      the "not implemented" exit of the replay phase is distinct from
      every other exit and ends every [-replay] run that got past the
      emit phase (C26).

    ** Bounds and fuel

    [ReplaceAll]'s loop runs on fuel [len s + 1]; each iteration continues
    on a strictly shorter suffix, so the fuel is never exhausted
    ([replace_all_go_fuel_eq]: any fuel above [len s] gives the same
    string).
    The bound on [delta] is checked exhaustively for Burp paths of at most
    256 bytes, the longest a correlated path reasonably has; beyond it
    only the symbolic facts of [Matcher] are proved.  Lengths and indices
    are [nat]: Go's [int] and [uint64] counters ([pathCount]) cannot
    overflow on inputs that fit in memory.

    ** Not modelled

    The parsers (burpxml, openapi, cfg) and the file system are libraries
    the code only calls: they are the fields of [world], of which only
    the results are modelled (the file handle is the contents the parser
    reads); the theorems hold for every [world].  The JSON bytes and the
    [bufio.Writer] over stdout are not modelled: [encode] says whether
    [enc.Encode] succeeds, which depends on the output (a full buffer that
    cannot be flushed); the deferred [out.Flush] of line 83, which
    [os.Exit] in [fatal] skips, has no counterpart in [res]; debug output
    under [-D] has no effect on results; [net/url] is the interface
    [UrlParser] with a simple instance [url_model]; [Replace] with an
    empty pattern inserts at byte, not rune, boundaries (the same on
    ASCII).  A Go [range] over a map may choose a new order at every loop;
    the model fixes one order per map, and the theorems quantify over all
    of them.  Nothing in the program runs forever or concurrently, so no
    liveness property arises.

    ** Plan for the next steps

    Order independence of [left2right] for tables whose keys and values
    do not overlap (it needs commutation lemmas for [ReplaceAll] on
    non-overlapping patterns). *)

From stdpp Require Export base list gmap strings.
From Stdlib Require Export Ascii.

(** ** Outcomes of the program: value, fatal exit or runtime panic

    [src/correlator.go] ends a run early in two ways: the helper [fatal]
    prints a message and calls [os.Exit(1)], and the Go runtime panics on a
    slice index out of range.  Every fallible operation of the model returns
    a [res]. *)

(** The calls of [fatal] in [src/correlator.go], one constructor per call
    site (the printed message is not modelled, only which call fires). *)
Inductive fatal_reason :=
  | ErrNoApiArg          (* main, line 51 *)
  | ErrReplayAuth        (* main, line 55 *)
  | ErrApiOpen           (* main, line 66 *)
  | ErrApiParse          (* main, line 72 *)
  | ErrNoBurpName        (* main, line 87 *)
  | ErrBurpOpen          (* main, line 92 *)
  | ErrBurpParse         (* main, line 97 *)
  | ErrNoFromName        (* main, line 102 *)
  | ErrNoToName          (* main, line 106 *)
  | ErrDbOpen            (* ingestDb, line 400 *)
  | ErrDbRead            (* ingestDb, line 405 *)
  | ErrUrlParse          (* substitute, line 356 *)
  | ErrJsonEncode        (* main, line 223 *)
  | ErrReplayUnimplemented. (* main, line 233 *)

#[export] Instance fatal_reason_eq_dec : EqDecision fatal_reason.
Proof. solve_decision. Defined.

(** Runtime panics the code can raise. *)
Inductive panic_reason :=
  | PanicSliceBounds.    (* lines[i+1:] with i+1 > len(lines) *)

Inductive res (A : Type) :=
  | Ok (a : A)
  | Fatal (r : fatal_reason)
  | Panic (p : panic_reason).
Arguments Ok {A} a.
Arguments Fatal {A} r.
Arguments Panic {A} p.

#[export] Instance res_ret : MRet res := fun A a => Ok a.
#[export] Instance res_bind : MBind res := fun A B f m =>
  match m with
  | Ok a => f a
  | Fatal r => Fatal r
  | Panic p => Panic p
  end.
#[export] Instance res_fmap : FMap res := fun A B f m =>
  match m with
  | Ok a => Ok (f a)
  | Fatal r => Fatal r
  | Panic p => Panic p
  end.

(** [is_ok r] holds when the run went on (neither exit nor panic). *)
Definition is_ok {A} (r : res A) : bool :=
  match r with Ok _ => true | _ => false end.

(** [no_panic r] holds when the run did not end in a runtime panic (it
    went on or called [fatal]). *)
Definition no_panic {A} (r : res A) : bool :=
  match r with Panic _ => false | _ => true end.

(** The two exits of the last phases of [main]: the JSON encoder's error
    (line 223) and the unimplemented replay (line 233). *)
Definition late_exit (e : fatal_reason) : bool :=
  match e with ErrJsonEncode | ErrReplayUnimplemented => true | _ => false end.

(** [avoids P r] holds when [r] is no call of [fatal] at a site of [P]. *)
Definition avoids {A} (P : fatal_reason -> bool) (r : res A) : bool :=
  match r with Fatal e => negb (P e) | _ => true end.

(** ** Byte strings and Go slicing

    Go strings are byte sequences and [len] counts bytes; a Rocq [string]
    is a list of 8-bit [ascii] characters, so [String.length] is Go's
    [len].  [s.[: i]] and [s.[i :]] are Go's [s[:i]] and [s[i:]] for
    [i <= len(s)]. *)

Fixpoint str_take (n : nat) (s : string) : string :=
  match n, s with
  | O, _ => ""
  | S n', String c s' => String c (str_take n' s')
  | S _, EmptyString => ""
  end.

Fixpoint str_drop (n : nat) (s : string) : string :=
  match n, s with
  | O, _ => s
  | S n', String _ s' => str_drop n' s'
  | S _, EmptyString => ""
  end.

(** stdpp marks [String.append] [simpl never]; the proofs below compute
    with it, so let [simpl] and [cbn] unfold it on constructors. *)
Arguments String.append : simpl nomatch.

Declare Scope corr_scope.
Delimit Scope corr_scope with corr.
Notation "s .[: i ]" := (str_take i s) (format "s .[: i ]") : corr_scope.
Notation "s .[ i :]" := (str_drop i s) (format "s .[ i :]") : corr_scope.
Notation "'len' s" := (String.length s) (at level 10) : corr_scope.
Open Scope corr_scope.

(** A bounded universal check that [vm_compute] can run. *)
Fixpoint all_below (n : nat) (P : nat -> bool) : bool :=
  match n with
  | O => true
  | S k => P k && all_below k P
  end.

(** ** Automation *)

Create HintDb corr discriminated.
Create Rewrite HintDb corr_rw.

(** Invert a successful bind in a hypothesis. *)
Ltac res_inv :=
  repeat match goal with
  | H : Ok _ = Ok _ |- _ => injection H as H; subst
  | H : Ok _ = Fatal _ |- _ => discriminate H
  | H : Ok _ = Panic _ |- _ => discriminate H
  | H : Fatal _ = Ok _ |- _ => discriminate H
  | H : Panic _ = Ok _ |- _ => discriminate H
  | H : (?m ≫= _) = _ |- _ =>
      let E := fresh "E" in destruct m eqn:E; cbn in H
  end.

(** ** Shared lemmas *)

Lemma bind_Ok {A B} (a : A) (f : A -> res B) : (Ok a ≫= f) = f a.
Proof. reflexivity. Qed.

Lemma bind_eq_Ok {A B} (m : res A) (f : A -> res B) b :
  (m ≫= f) = Ok b <-> exists a, m = Ok a /\ f a = Ok b.
Proof.
  split.
  - destruct m; cbn; intros; [eauto | discriminate | discriminate].
  - intros (a & -> & H). exact H.
Qed.

Lemma str_app_length (s t : string) : len (s +:+ t) = len s + len t.
Proof. induction s; cbn; [done | by rewrite IHs]. Qed.

Lemma str_app_nil_r (s : string) : s +:+ "" = s.
Proof. induction s; cbn; [done | by rewrite IHs]. Qed.

Lemma str_app_assoc (s t u : string) : s +:+ (t +:+ u) = (s +:+ t) +:+ u.
Proof. induction s; cbn; [done | by rewrite IHs]. Qed.

Lemma str_take_drop (n : nat) (s : string) : s.[: n] +:+ s.[n :] = s.
Proof. revert s; induction n; intros []; cbn; try done. by rewrite IHn. Qed.

Lemma str_take_length (n : nat) (s : string) : len (s.[: n]) = min n (len s).
Proof. revert s; induction n; intros []; cbn; auto. Qed.

Lemma str_drop_length (n : nat) (s : string) : len (s.[n :]) = len s - n.
Proof. revert s; induction n; intros []; cbn; auto with lia. Qed.

Lemma str_drop_app (s t : string) : (s +:+ t).[len s :] = t.
Proof. induction s; cbn; auto. Qed.

Lemma str_take_app (s t : string) : (s +:+ t).[: len s] = s.
Proof. induction s; cbn; [done | by rewrite IHs]. Qed.

Lemma all_below_spec (n : nat) (P : nat -> bool) :
  all_below n P = true -> forall k, k < n -> P k = true.
Proof.
  induction n as [|n IH]; cbn; [lia|].
  rewrite andb_true_iff. intros [HP Hn] k Hk.
  destruct (decide (k = n)) as [->|]; [done|]. apply IH; [done | lia].
Qed.

(** A bind does not panic when neither of its parts does. *)
Lemma bind_no_panic {A B} (m : res A) (f : A -> res B) :
  no_panic m = true -> (forall a, m = Ok a -> no_panic (f a) = true) ->
  no_panic (m ≫= f) = true.
Proof. destruct m; cbn; [eauto | done | done]. Qed.

Lemma Ok_no_panic {A} (a : A) : no_panic (Ok a) = true.
Proof. done. Qed.

Lemma Fatal_no_panic {A} (r : fatal_reason) : no_panic (Fatal (A := A) r) = true.
Proof. done. Qed.

Lemma bind_avoids {A B} (P : fatal_reason -> bool) (m : res A) (f : A -> res B) :
  avoids P m = true -> (forall a, m = Ok a -> avoids P (f a) = true) ->
  avoids P (m ≫= f) = true.
Proof. destruct m; cbn; [eauto | done | done]. Qed.

Lemma Ok_avoids {A} P (a : A) : avoids P (Ok a) = true.
Proof. done. Qed.

Lemma Panic_avoids {A} P (p : panic_reason) : avoids P (Panic (A := A) p) = true.
Proof. done. Qed.

Lemma Fatal_avoids {A} P (r : fatal_reason) : P r = false -> avoids P (Fatal (A := A) r) = true.
Proof. cbn. by intros ->. Qed.

Lemma avoids_Fatal {A} P (m : res A) (r : fatal_reason) :
  avoids P m = true -> m = Fatal r -> P r = false.
Proof. intros Hm ->. cbn in Hm. by destruct (P r). Qed.

#[export] Hint Resolve Ok_no_panic Fatal_no_panic bind_no_panic : corr.
#[export] Hint Resolve Ok_avoids Panic_avoids bind_avoids : corr.
#[export] Hint Extern 1 (avoids _ (Fatal _) = true) => apply Fatal_avoids; reflexivity : corr.
#[export] Hint Rewrite str_app_length str_take_length str_drop_length : corr_rw.
#[export] Hint Rewrite str_drop_app str_take_app str_app_nil_r : corr_rw.
#[export] Hint Resolve bind_Ok : corr.
