(* ===== verification/GoStrings.v ===== *)
(** * The Go [strings] functions the correlator calls

    [src/correlator.go] only calls these library functions, and does not
    define them: [strings.HasPrefix], [strings.HasSuffix], [strings.Index],
    [strings.Split], [strings.Replace] (with [n = 1]) and
    [strings.ReplaceAll].  They are modelled here after the Go library's
    definitions, byte by byte.  The only place where Go looks at runes
    instead of bytes is [Replace] with an empty [old] string, which inserts
    [new] at every rune boundary; the model inserts it at every byte
    boundary, which is the same for ASCII text.  The lemmas below are the
    ones the components share: occurrence and suffix characterisations,
    the split/join round trip, and the termination of [ReplaceAll]'s
    loop. *)

From S2P Require Import Prelude.

(** ** Prefixes, suffixes, occurrences *)

(** [strings.HasPrefix(s, prefix)]. *)
Fixpoint has_prefix (s p : string) {struct p} : bool :=
  match p, s with
  | EmptyString, _ => true
  | String c p', String d s' => bool_decide (c = d) && has_prefix s' p'
  | String _ _, EmptyString => false
  end.

(** [strings.HasSuffix(s, suffix)]:
    [len(s) >= len(suffix) && s[len(s)-len(suffix):] == suffix]. *)
Definition has_suffix (s suffix : string) : bool :=
  (len suffix <=? len s) && bool_decide (s.[len s - len suffix :] = suffix).

(** [strings.Index(s, substr)], [None] for Go's [-1]. *)
Fixpoint index (s sub : string) : option nat :=
  if has_prefix s sub then Some 0
  else match s with
       | EmptyString => None
       | String _ s' => S <$> index s' sub
       end.

(** ** Split *)

(** [strings.Split(s, sep)] for a separator of one byte, the only kind the
    code uses (["/"] and ["\n"]): the pieces between the separators, so
    that [Split("", sep) = [""]] and [Split("/a", "/") = ["", "a"]]. *)
Fixpoint split (s : string) (sep : ascii) : list string :=
  match s with
  | EmptyString => [""]
  | String c s' =>
      let rest := split s' sep in
      if bool_decide (c = sep) then "" :: rest
      else match rest with
           | x :: xs => String c x :: xs
           | [] => [String c ""]
           end
  end.

(** ** Replace *)

(** [strings.Replace(s, old, new, 1)]: the first occurrence of [old] is
    replaced; [Replace] returns [s] itself when [old == new]. *)
Definition replace1 (s old new : string) : string :=
  if bool_decide (old = new) then s
  else match index s old with
       | None => s
       | Some j => s.[: j] +:+ new +:+ s.[j + len old :]
       end.

(** [Replace] with an empty [old]: [new] before every byte and at the end. *)
Fixpoint interleave (new s : string) : string :=
  match s with
  | EmptyString => new
  | String c s' => new +:+ String c (interleave new s')
  end.

(** The loop of [Replace] for a non-empty [old]: find the next occurrence
    from [start], copy what precedes it, write [new], continue after it.
    [fuel] bounds the number of iterations; [replace_all] gives it one
    more than the length of [s], which [replace_all_go_fuel_eq] shows is
    enough. *)
Fixpoint replace_all_go (fuel : nat) (s old new : string) : string :=
  match fuel with
  | O => s
  | S f =>
      match index s old with
      | None => s
      | Some j => s.[: j] +:+ new +:+ replace_all_go f (s.[j + len old :]) old new
      end
  end.

(** [strings.ReplaceAll(s, old, new)]. *)
Definition replace_all (s old new : string) : string :=
  if bool_decide (old = new) then s
  else if bool_decide (old = "") then interleave new s
  else replace_all_go (S (len s)) s old new.

(** ** Lemmas *)

Lemma has_prefix_spec (s p : string) :
  has_prefix s p = true <-> exists r, s = p +:+ r.
Proof.
  revert s; induction p as [|c p IH]; intros [|d s]; cbn.
  - split; [exists ""; done | done].
  - split; [eauto | done].
  - split; [done | by intros [r ?]].
  - rewrite andb_true_iff, bool_decide_eq_true, IH. split.
    + intros [-> [r ->]]. eauto.
    + intros [r Hr]. injection Hr as -> ->. eauto.
Qed.

Lemma has_prefix_app (p r : string) : has_prefix (p +:+ r) p = true.
Proof. apply has_prefix_spec. eauto. Qed.

Lemma index_unfold (s sub : string) :
  index s sub =
    if has_prefix s sub then Some 0
    else match s with EmptyString => None | String _ s' => S <$> index s' sub end.
Proof. by destruct s. Qed.

(** [index] finds an occurrence: [s] splits around it. *)
Lemma index_Some (s sub : string) j :
  index s sub = Some j ->
  j + len sub <= len s /\ s = s.[: j] +:+ sub +:+ s.[j + len sub :].
Proof.
  revert j; induction s as [|c s IH]; intros j; cbn [index].
  - destruct (has_prefix "" sub) eqn:Hp; intros; simplify_eq.
    apply has_prefix_spec in Hp as [r Hr].
    destruct sub; [done | discriminate].
  - destruct (has_prefix (String c s) sub) eqn:Hp; intros Hj.
    + injection Hj as <-. apply has_prefix_spec in Hp as [r Hr].
      rewrite Hr. cbn [str_take Nat.add].
      rewrite str_drop_app, str_app_length. split; [lia | done].
    + destruct (index s sub) as [k|] eqn:Hk; cbn in Hj; [|done].
      injection Hj as <-. destruct (IH k eq_refl) as [Hle Heq].
      cbn. split; [lia|]. by rewrite <- Heq.
Qed.

(** [index] is [None] exactly when [sub] occurs nowhere in [s]. *)
Lemma index_None (s sub : string) :
  index s sub = None <-> ~ exists p r, s = p +:+ sub +:+ r.
Proof.
  split.
  - intros Hn [p [r ->]]. induction p as [|c p IH]; cbn [index String.append] in Hn.
    + by rewrite index_unfold, has_prefix_app in Hn.
    + destruct (has_prefix _ sub); [done|].
      destruct (index (p +:+ sub +:+ r) sub); [done | by apply IH].
  - intros Hno. destruct (index s sub) as [j|] eqn:Hj; [|done].
    exfalso. apply Hno. apply index_Some in Hj as [_ Heq]. eauto.
Qed.

Lemma has_suffix_spec (s t : string) :
  has_suffix s t = true <-> exists p, s = p +:+ t.
Proof.
  unfold has_suffix. rewrite andb_true_iff, Nat.leb_le, bool_decide_eq_true.
  split.
  - intros [Hle Heq]. exists (s.[: len s - len t]).
    by rewrite <- Heq at 2; rewrite str_take_drop.
  - intros [p ->]. rewrite str_app_length.
    replace (len p + len t - len t) with (len p) by lia.
    rewrite str_drop_app. split; [lia | done].
Qed.

(** A suffix is in particular an occurrence. *)
Lemma has_suffix_index (s t : string) :
  has_suffix s t = true -> exists j, index s t = Some j.
Proof.
  intros [p ->]%has_suffix_spec.
  destruct (index (p +:+ t) t) eqn:Hi; [eauto|].
  exfalso. eapply index_None; [exact Hi|]. exists p, "". by rewrite str_app_nil_r.
Qed.

(** Removing the first occurrence of a non-empty [old] shortens [s] by
    exactly [len old]; when [old] does not occur, [s] is unchanged. *)
Lemma replace1_delete_length (s old : string) j :
  old <> "" -> index s old = Some j -> len (replace1 s old "") = len s - len old.
Proof.
  intros Hne Hj. unfold replace1. rewrite bool_decide_false by done. rewrite Hj.
  apply index_Some in Hj as [Hle Heq].
  autorewrite with corr_rw; cbn; autorewrite with corr_rw. lia.
Qed.

Lemma replace1_None (s old new : string) : index s old = None -> replace1 s old new = s.
Proof. intros Hn. unfold replace1. rewrite Hn. by case_bool_decide. Qed.

#[export] Hint Resolve has_prefix_app : corr.

(** *** Split and join *)

Lemma split_nonnil (s : string) (sep : ascii) : split s sep <> [].
Proof.
  destruct s as [|c s]; cbn; [done|].
  case_bool_decide; [done|]. by destruct (split s sep).
Qed.

Lemma concat_cons_char (sep : string) (c : ascii) (x : string) (xs : list string) :
  String.concat sep (String c x :: xs) = String c (String.concat sep (x :: xs)).
Proof. by destruct xs. Qed.

(** Joining the pieces of [Split(s, sep)] with [sep] gives [s] back. *)
Lemma split_concat (s : string) (sep : ascii) :
  String.concat (String sep "") (split s sep) = s.
Proof.
  induction s as [|c s IH]; cbn [split]; [done|].
  case_bool_decide as Hc.
  - subst c. destruct (split s sep) as [|x xs] eqn:Hs; [by apply split_nonnil in Hs|].
    change (String sep (String.concat (String sep "") (x :: xs)) = String sep s).
    by rewrite IH.
  - destruct (split s sep) as [|x xs] eqn:Hs; [by apply split_nonnil in Hs|].
    by rewrite concat_cons_char, IH.
Qed.

(** A string without the separator is one piece. *)
Lemma split_no_sep (s : string) (sep : ascii) :
  index s (String sep "") = None -> split s sep = [s].
Proof.
  induction s as [|c s IH]; cbn [split]; [done|].
  rewrite index_unfold. intros Hn.
  destruct (has_prefix (String c s) (String sep "")) eqn:Hp; [done|].
  assert (c <> sep) as Hc.
  { intros ->. cbn in Hp. by rewrite bool_decide_true in Hp. }
  rewrite bool_decide_false by done. rewrite IH; [done|].
  by destruct (index s _).
Qed.

(** No piece of [Split(s, sep)] contains [sep]. *)
Lemma split_pieces_no_sep (s : string) (sep : ascii) :
  Forall (fun x => index x (String sep "") = None) (split s sep).
Proof.
  induction s as [|c s IH]; cbn [split]; [by repeat constructor|].
  case_bool_decide as Hc; [by constructor|].
  destruct (split s sep) as [|x xs] eqn:Hs; [by apply split_nonnil in Hs|].
  inversion IH as [|? ? Hx Hxs]; subst. constructor; [|done].
  rewrite index_unfold, Hx. cbn. by rewrite bool_decide_false.
Qed.

(** A piece without [sep], then [sep]: the piece comes off the front. *)
Lemma split_app_sep (x r : string) (sep : ascii) :
  index x (String sep "") = None -> split (x +:+ String sep r) sep = x :: split r sep.
Proof.
  induction x as [|c x IH]; intros Hx; cbn [String.append split].
  - by rewrite bool_decide_true.
  - rewrite index_unfold in Hx. cbn [has_prefix] in Hx.
    destruct (bool_decide (sep = c)) eqn:Hc; cbn in Hx; [done|].
    rewrite bool_decide_false by (intros ->; by rewrite bool_decide_true in Hc).
    rewrite IH; [done|]. by destruct (index x _).
Qed.

(** Splitting the join of pieces without [sep] gives the pieces back: the
    other direction of the round trip [split_concat]. *)
Lemma concat_split (xs : list string) (sep : ascii) :
  xs <> [] -> Forall (fun x => index x (String sep "") = None) xs ->
  split (String.concat (String sep "") xs) sep = xs.
Proof.
  induction xs as [|x [|y ys] IH]; intros Hne Hall; [done| |].
  - inversion Hall; subst. by apply split_no_sep.
  - inversion Hall as [|? ? Hx Hys]; subst.
    change (String.concat (String sep "") (x :: y :: ys)) with
      (x +:+ String sep (String.concat (String sep "") (y :: ys))).
    by rewrite split_app_sep, IH.
Qed.

(** *** Termination of the [ReplaceAll] loop

    Each iteration of the loop over a non-empty [old] continues on a
    strictly shorter suffix, so [len s + 1] iterations always reach the
    exit; more fuel does not change the result. *)
Lemma replace_all_go_fuel_eq (f1 f2 : nat) (s old new : string) :
  old <> "" -> S (len s) <= f1 -> S (len s) <= f2 ->
  replace_all_go f1 s old new = replace_all_go f2 s old new.
Proof.
  intros Hne. revert f2 s. induction f1 as [|f1 IH]; intros [|f2] s H1 H2; try lia.
  cbn [replace_all_go]. destruct (index s old) as [j|] eqn:Hj; [|done].
  destruct (index_Some _ _ _ Hj) as [Hle _].
  assert (len old <> 0) by (destruct old; [done | cbn; lia]).
  rewrite (IH f2); [done | |]; autorewrite with corr_rw; lia.
Qed.

(** [ReplaceAll] leaves a string without occurrences of [old] unchanged. *)
Lemma replace_all_absent (s old new : string) :
  index s old = None -> replace_all s old new = s.
Proof.
  intros Hn. unfold replace_all.
  case_bool_decide; [done|]. case_bool_decide as He.
  - subst old. by destruct s.
  - cbn. by rewrite Hn.
Qed.
