(* ===== verification/GoFloat.v ===== *)
(** * IEEE-754 binary64 arithmetic, as Go's [float64]

    The fuzzy matcher of [src/correlator.go] (function [match], lines
    308-312) computes a percentage with [float64] division and
    multiplication and truncates it with an [int64] conversion.  This file
    models those runtime operations exactly, on the Standard Library's
    [SpecFloat] specification of binary floating point (53-bit mantissa,
    maximal exponent 1024, rounding to nearest even), which is the
    semantics of Go's [float64]. *)

From Stdlib Require Import SpecFloat.
From S2P Require Import Prelude.

Local Open Scope Z_scope.

Definition prec : Z := 53.
Definition emax : Z := 1024.

Definition float64 := spec_float.

(** [float64(n)] for a non-negative integer (exact below 2^53). *)
Definition float64_of_nat (n : nat) : float64 :=
  binary_normalize prec emax (Z.of_nat n) 0 false.

Definition fdiv (x y : float64) : float64 := SFdiv prec emax x y.
Definition fmul (x y : float64) : float64 := SFmul prec emax x y.

(** [int64(x)]: truncation toward zero.  Go leaves the conversion of NaN,
    infinities and out-of-range values implementation-defined; the model
    gives 0, and the matcher never converts such a value (see
    [Matcher.delta_bounds]). *)
Definition int64_of_float (x : float64) : Z :=
  match x with
  | S754_finite s m e =>
      let z := if 0 <=? e then Z.pos m * 2 ^ e else Z.pos m / 2 ^ (- e) in
      if s then - z else z
  | _ => 0
  end.
