(* ===== verification/Flags.v ===== *)
(** * The command-line flags of the correlator

    [src/correlator.go] reads its configuration from package-level flag
    variables (lines 27-41) that every function consults.  The model passes
    them explicitly as one record [flags]; a field has the flag's Go name. *)

From S2P Require Import Prelude.

(** The flag variables: [fuzzy] is an [int64], the names and header values
    are strings, the rest are booleans. *)
Record flags := mk_flags {
  fuzzy : Z;
  fromName : string;
  toName : string;
  burpName : string;
  b64 : bool;
  chatty : bool;
  noSub : bool;
  skipBody : bool;
  doReplay : bool;
  authHeader : string;
  cookieHeader : string;
  omitAuth : bool;
  emitJSON : bool
}.

(** The defaults the flag declarations give. *)
Definition default_flags : flags := {|
  fuzzy := 100;
  fromName := "";
  toName := "";
  burpName := "";
  b64 := false;
  chatty := false;
  noSub := false;
  skipBody := false;
  doReplay := false;
  authHeader := "";
  cookieHeader := "";
  omitAuth := false;
  emitJSON := false
|}.

(** The flags with another [-fuzzy] threshold. *)
Definition set_fuzzy (t : Z) (fl : flags) : flags :=
  mk_flags t (fromName fl) (toName fl) (burpName fl) (b64 fl) (chatty fl) (noSub fl)
           (skipBody fl) (doReplay fl) (authHeader fl) (cookieHeader fl) (omitAuth fl)
           (emitJSON fl).
