(* ===== verification/Matcher.v ===== *)
(** * PathMatcher: function [match] of [src/correlator.go] (lines 293-323)

    [match(out, burp, api)] decides whether an observed Burp path
    corresponds to an OpenAPI path: a suffix always matches; otherwise the
    first occurrence of [api] is cut out of [burp], and the share of [burp]
    that the cut accounts for, as an [int64] percentage computed in
    [float64], is compared with the [-fuzzy] threshold.  The debug write
    to standard error under [-D] has no effect on the result and is not
    modelled.

    Theorems: a suffix matches at every threshold; a path that does not
    contain [api] never matches; the result is monotone in the threshold;
    [match] is characterised by suffix, occurrence and [delta]; [delta]
    lies in [0, 100] and differs from exact integer truncation by at most
    one (checked exhaustively by evaluation for Burp paths of at most 256
    bytes, which takes about half a minute); and, against the spec, for
    every path of at most 256 bytes, the default threshold 100 accepts any
    occurrence surrounded by under 1% of the path, and the percentage is
    truncated, one above the spec's rounded value whenever the fraction
    is at least one half. *)

From S2P Require Import Prelude GoStrings GoFloat Flags.

Local Open Scope Z_scope.

(** Lines 308-312: [delta := 100 - int64((remainder/origin)*100)] with
    [origin = float64(len(burp))], [remainder = float64(len(modified))]. *)
Definition delta (remainder origin : nat) : Z :=
  100 - int64_of_float
          (fmul (fdiv (float64_of_nat remainder) (float64_of_nat origin))
                (float64_of_nat 100)).

(** Lines 294-323. *)
Definition match_ (fl : flags) (burp api : string) : bool :=
  if has_suffix burp api then true
  else
    let modified := replace1 burp api "" in
    if Nat.eqb (len modified) (len burp) then false
    else bool_decide (fuzzy fl <= delta (len modified) (len burp)).

(** ** Reference points *)

(** The exact percentage with integer truncation, and the rounded one the
    spec (section 4.1) describes. *)
Definition exact_delta (remainder origin : nat) : Z :=
  100 - (100 * Z.of_nat remainder) / Z.of_nat origin.

Definition spec_rounded_delta (remainder origin : nat) : Z :=
  100 - (200 * Z.of_nat remainder + Z.of_nat origin) / (2 * Z.of_nat origin).

(** A string of [n] copies of byte [c]. *)
Fixpoint str_repeat (n : nat) (c : ascii) : string :=
  match n with O => "" | S k => String c (str_repeat k c) end.

(** What [delta_bounds] checks of one pair of lengths. *)
Definition delta_ok (remainder origin : nat) : bool :=
  let d := delta remainder origin in
  let e := exact_delta remainder origin in
  (0 <=? d) && (d <=? 100) &&
  ((d =? e) || ((d =? e + 1) && ((100 * Z.of_nat remainder) mod Z.of_nat origin =? 0))).

Definition delta_check (bound : nat) : bool :=
  all_below (S bound) (fun origin => all_below origin (fun rem => delta_ok rem origin)).

(** ** Lemmas *)

(** The no-change test of line 304 fires exactly when [api] is absent. *)
Lemma replace1_len_eq (burp api : string) :
  api <> "" ->
  Nat.eqb (len (replace1 burp api "")) (len burp) = bool_decide (index burp api = None).
Proof.
  intros Hne. destruct (index burp api) as [j|] eqn:Hj.
  - rewrite (replace1_delete_length _ _ j) by done.
    assert (len api <> 0)%nat as Hapi by (destruct api; [done | cbn; lia]).
    destruct (index_Some _ _ _ Hj). rewrite bool_decide_false by done.
    apply Nat.eqb_neq. lia.
  - rewrite replace1_None by done. rewrite bool_decide_true by done.
    apply Nat.eqb_refl.
Qed.

Lemma delta_check_spec (bound rem origin : nat) :
  delta_check bound = true -> (origin <= bound)%nat -> (rem < origin)%nat ->
  delta_ok rem origin = true.
Proof.
  intros Hc Ho Hr. apply (all_below_spec origin (fun r => delta_ok r origin)); [|done].
  apply (all_below_spec (S bound) (fun o => all_below o (fun r => delta_ok r o)));
    [exact Hc | lia].
Qed.

Lemma delta_check_256 : delta_check 256 = true.
Proof. vm_compute. reflexivity. Qed.

(** ** Properties *)

(** (C3) Suffix match is unconditional: an OpenAPI path behind any mount
    prefix matches at every threshold, even 100. *)
Theorem match_suffix (fl : flags) (prefix api : string) :
  match_ fl (prefix +:+ api) api = true.
Proof.
  unfold match_. replace (has_suffix (prefix +:+ api) api) with true; [done|].
  symmetry. apply has_suffix_spec. eauto.
Qed.

(** (C4) A Burp path that does not contain [api] never matches, whatever
    the threshold. *)
Theorem match_absent (fl : flags) (burp api : string) :
  ~ (exists p r, burp = p +:+ api +:+ r) -> match_ fl burp api = false.
Proof.
  intros Habs. apply index_None in Habs.
  unfold match_. destruct (has_suffix burp api) eqn:Hs.
  - destruct (has_suffix_index _ _ Hs) as [j Hj]. congruence.
  - rewrite replace1_None by done. by rewrite Nat.eqb_refl.
Qed.

(** (C5) Fuzzy threshold monotonicity: lowering [-fuzzy] never loses a
    match. *)
Theorem match_threshold_monotone (fl1 fl2 : flags) (burp api : string) :
  fuzzy fl2 <= fuzzy fl1 -> match_ fl1 burp api = true -> match_ fl2 burp api = true.
Proof.
  intros Hle. unfold match_.
  destruct (has_suffix burp api); [done|].
  destruct (Nat.eqb _ _); [done|].
  rewrite !bool_decide_eq_true. lia.
Qed.

(** (C2) Functional behaviour: for a non-empty OpenAPI path, [match]
    holds exactly when [api] is a suffix of [burp], or occurs in it and
    the float percentage [delta] computed from the remainder
    [len burp - len api] reaches the threshold. *)
Theorem match_spec (fl : flags) (burp api : string) :
  api <> "" ->
  match_ fl burp api = true <->
    has_suffix burp api = true \/
    ((exists p r, burp = p +:+ api +:+ r) /\
     fuzzy fl <= delta (len burp - len api) (len burp)).
Proof.
  intros Hne.
  assert (match_ fl burp api =
    has_suffix burp api ||
    (bool_decide (index burp api <> None) &&
     bool_decide (fuzzy fl <= delta (len burp - len api) (len burp)))) as ->.
  { unfold match_. destruct (has_suffix burp api); [done|]. cbn.
    rewrite replace1_len_eq by done.
    destruct (index burp api) as [j|] eqn:Hj; cbn; [|done].
    by rewrite (replace1_delete_length _ _ j). }
  rewrite orb_true_iff, andb_true_iff, !bool_decide_eq_true.
  assert (index burp api <> None <-> exists p r, burp = p +:+ api +:+ r) as ->.
  { split.
    - destruct (index burp api) as [j|] eqn:Hj; [|done]. intros _.
      apply index_Some in Hj as [_ Heq]. eauto.
    - intros Hex Hn. by apply (index_None burp api) in Hn. }
  tauto.
Qed.

(** (C12) The default threshold is not "exact or suffix only" (spec
    section 6): at [-fuzzy=100], a Burp path of at most 256 bytes that
    contains the OpenAPI path anywhere matches as soon as the bytes around
    the occurrence make up less than 1% of the path, suffix or not. *)
Theorem default_threshold_accepts_near_match (p api r : string) :
  api <> "" -> (len (p +:+ api +:+ r) <= 256)%nat ->
  (100 * (len p + len r) < len (p +:+ api +:+ r))%nat ->
  match_ default_flags (p +:+ api +:+ r) api = true.
Proof.
  intros Hne Hlen Hsmall.
  assert (len (p +:+ api +:+ r) = len p + len api + len r)%nat as Hl
    by (rewrite !str_app_length; lia).
  assert (len api <> 0)%nat as Hapi by (destruct api; [done | cbn; lia]).
  unfold match_. destruct (has_suffix _ api); [done|].
  destruct (index (p +:+ api +:+ r) api) as [j|] eqn:Hj;
    [|exfalso; apply index_None in Hj; apply Hj; eauto].
  rewrite (replace1_delete_length _ _ j Hne Hj).
  rewrite (proj2 (Nat.eqb_neq _ _)) by lia. apply bool_decide_eq_true.
  assert (len (p +:+ api +:+ r) - len api < len (p +:+ api +:+ r))%nat as Hrem by lia.
  pose proof (delta_check_spec 256 _ _ delta_check_256 Hlen Hrem) as H.
  unfold delta_ok, exact_delta in H.
  rewrite !andb_true_iff, orb_true_iff, andb_true_iff, !Z.leb_le, !Z.eqb_eq in H.
  rewrite (Z.div_small (100 * Z.of_nat _)) in H by lia.
  cbn [fuzzy default_flags]. lia.
Qed.

(** (C13) The percentage is truncated toward zero, not rounded as the
    spec (section 4.1) says: for every Burp path of at most 256 bytes
    whose exact percentage has a fractional part of at least one half,
    [delta] is one more than the spec's rounded value, so a threshold
    equal to [delta] matches where the spec's rule rejects. *)
Theorem delta_truncates_not_rounds (remainder origin : nat) :
  (origin <= 256)%nat -> (remainder < origin)%nat ->
  Z.of_nat origin <= 2 * ((100 * Z.of_nat remainder) mod Z.of_nat origin) ->
  delta remainder origin = spec_rounded_delta remainder origin + 1.
Proof.
  intros Ho Hr Hfrac.
  pose proof (delta_check_spec 256 remainder origin delta_check_256 Ho Hr) as H.
  unfold delta_ok, exact_delta in H.
  rewrite !andb_true_iff, orb_true_iff, andb_true_iff, !Z.leb_le, !Z.eqb_eq in H.
  pose proof (Z.div_mod (100 * Z.of_nat remainder) (Z.of_nat origin) ltac:(lia)) as Hdm.
  pose proof (Z.mod_pos_bound (100 * Z.of_nat remainder) (Z.of_nat origin) ltac:(lia)) as Hb.
  assert ((200 * Z.of_nat remainder + Z.of_nat origin) / (2 * Z.of_nat origin) =
          100 * Z.of_nat remainder / Z.of_nat origin + 1) as Hq.
  { symmetry. apply (Z.div_unique _ _ _ (2 * ((100 * Z.of_nat remainder) mod Z.of_nat origin)
                                         - Z.of_nat origin)); [left; lia|].
    remember (100 * Z.of_nat remainder / Z.of_nat origin) as q.
    remember ((100 * Z.of_nat remainder) mod Z.of_nat origin) as m. lia. }
  unfold spec_rounded_delta. rewrite Hq.
  destruct H as [_ [Hd | [Hd Hm]]]; [lia|]. rewrite Hm in Hfrac. lia.
Qed.

(** (C11) Bounds of the float percentage: for every Burp path of at most
    256 bytes and every proper remainder, [delta] lies in [0, 100] and is
    the exact truncated percentage, or one more when the exact quotient
    is an integer (binary64 rounds e.g. 29/100*100 to 28.999...). *)
Theorem delta_bounds (remainder origin : nat) :
  (origin <= 256)%nat -> (remainder < origin)%nat ->
  0 <= delta remainder origin <= 100 /\
  (delta remainder origin = exact_delta remainder origin \/
   (delta remainder origin = exact_delta remainder origin + 1 /\
    (100 * Z.of_nat remainder) mod Z.of_nat origin = 0)).
Proof.
  intros Ho Hr. pose proof (delta_check_spec 256 remainder origin delta_check_256 Ho Hr) as H.
  unfold delta_ok in H. rewrite !andb_true_iff, orb_true_iff, andb_true_iff, !Z.leb_le, !Z.eqb_eq in H.
  lia.
Qed.

(** ** A match is an occurrence *)

(** [match] holds only when [api] occurs in [burp] (as a suffix or
    anywhere): no fuzzy percentage can correlate a path that does not
    contain the OpenAPI path literally. *)
Lemma match_occurs (fl : flags) (burp api : string) :
  match_ fl burp api = true -> exists p r, burp = p +:+ api +:+ r.
Proof.
  unfold match_. destruct (has_suffix burp api) eqn:Hs.
  - intros _. apply has_suffix_spec in Hs as [p ->]. exists p, "". by rewrite str_app_nil_r.
  - destruct (index burp api) as [j|] eqn:Hj.
    + intros _. apply index_Some in Hj as [_ Heq]. eauto.
    + rewrite replace1_None by done. by rewrite Nat.eqb_refl.
Qed.

(** ** Witnesses *)

Lemma default_threshold_accepts_near_match_witness :
  let api := "/subscriptions/{subscriptionId}/resourceGroups/{resourceGroupName}/providers/Microsoft.Web/sites/{name}" in
  api <> "" /\ (len ("" +:+ api +:+ "/") <= 256)%nat /\
  (100 * (len "" + len "/") < len ("" +:+ api +:+ "/"))%nat /\
  has_suffix ("" +:+ api +:+ "/") api = false /\
  match_ default_flags ("" +:+ api +:+ "/") api = true.
Proof.
  intros api.
  assert (api <> "") as Hne by discriminate.
  assert (len ("" +:+ api +:+ "/") <= 256)%nat as Hlen by (vm_compute; lia).
  assert (100 * (len "" + len "/") < len ("" +:+ api +:+ "/"))%nat as Hs by (vm_compute; lia).
  assert (has_suffix ("" +:+ api +:+ "/") api = false) as Hsuf by (vm_compute; reflexivity).
  split_and!; [exact Hne | exact Hlen | exact Hs | exact Hsuf |].
  exact (default_threshold_accepts_near_match "" api "/" Hne Hlen Hs).
Defined.

Lemma delta_truncates_not_rounds_witness :
  (7 <= 256)%nat /\ (6 < 7)%nat /\ Z.of_nat 7 <= 2 * ((100 * Z.of_nat 6) mod Z.of_nat 7) /\
  delta 6 7 = spec_rounded_delta 6 7 + 1.
Proof.
  assert (7 <= 256)%nat as H1 by lia. assert (6 < 7)%nat as H2 by lia.
  assert (Z.of_nat 7 <= 2 * ((100 * Z.of_nat 6) mod Z.of_nat 7)) as H3 by (vm_compute; discriminate).
  split_and!; [exact H1 | exact H2 | exact H3 | exact (delta_truncates_not_rounds 6 7 H1 H2 H3)].
Defined.

Lemma match_absent_witness :
  ~ (exists p r, "/gw/orders" = p +:+ "/api/x" +:+ r) /\
  match_ default_flags "/gw/orders" "/api/x" = false.
Proof.
  assert (~ (exists p r, "/gw/orders" = p +:+ "/api/x" +:+ r)) as H.
  { apply (proj1 (index_None "/gw/orders" "/api/x")). vm_compute. reflexivity. }
  split; [exact H | apply (match_absent default_flags "/gw/orders" "/api/x" H)].
Defined.

Lemma match_threshold_monotone_witness :
  fuzzy (set_fuzzy 50 default_flags) <= fuzzy default_flags /\
  match_ default_flags "/gw/api/x" "/api/x" = true /\
  match_ (set_fuzzy 50 default_flags) "/gw/api/x" "/api/x" = true.
Proof.
  assert (fuzzy (set_fuzzy 50 default_flags) <= fuzzy default_flags) as Hle by (cbn; lia).
  assert (match_ default_flags "/gw/api/x" "/api/x" = true) as Hm by (vm_compute; reflexivity).
  split; [exact Hle | split; [exact Hm |]].
  exact (match_threshold_monotone default_flags (set_fuzzy 50 default_flags) _ _ Hle Hm).
Defined.

Lemma match_spec_witness :
  "/api/x" <> "" /\
  (match_ (set_fuzzy 50 default_flags) "/api/x/extra" "/api/x" = true <->
   has_suffix "/api/x/extra" "/api/x" = true \/
   ((exists p r, "/api/x/extra" = p +:+ "/api/x" +:+ r) /\
    fuzzy (set_fuzzy 50 default_flags) <= delta (len "/api/x/extra" - len "/api/x") (len "/api/x/extra"))).
Proof.
  assert ("/api/x" <> "") as Hne by discriminate.
  split; [exact Hne | exact (match_spec _ _ _ Hne)].
Defined.

Lemma delta_bounds_witness :
  (100 <= 256)%nat /\ (29 < 100)%nat /\
  0 <= delta 29 100 <= 100 /\
  (delta 29 100 = exact_delta 29 100 \/
   (delta 29 100 = exact_delta 29 100 + 1 /\ (100 * Z.of_nat 29) mod Z.of_nat 100 = 0)).
Proof.
  assert (100 <= 256)%nat as H1 by lia. assert (29 < 100)%nat as H2 by lia.
  split; [exact H1 | split; [exact H2 | exact (delta_bounds 29 100 H1 H2)]].
Defined.
