(* ===== verification/Headers.v ===== *)
(** * HeaderRewriter: [subLine] and [stripLines] of [src/correlator.go]

    Both functions split the request text on ["\n"] with [strings.Split],
    work on the list of lines, and rebuild the text by appending every
    line followed by ["\n"] (lines 253-261 and 282-290), so their output
    always ends with a line terminator that the input's last piece did not
    have.  [subLine] (lines 240-262) replaces every line starting with a
    header prefix by [prefix + " " + value].  [stripLines] (lines 265-291)
    collects the indices of the lines starting with one of the prefixes
    and then deletes them one after the other from the shrinking slice,
    with [lines = append(lines[:i], lines[i+1:]...)]: the indices are not
    shifted after a deletion, and [lines[i+1:]] panics when [i+1] exceeds
    the current length.

    Theorems: [subLine] leaves a text without the header as it was plus one
    terminator (so the driver's two calls add two), and after it every
    line starting with the header carries the new value
    ([credential_lines], used by the driver); [stripLines] removes
    exactly the header lines when at most one is to be cut; it panics
    exactly when the [k]-th cut index reaches the length minus [k], as on
    the spec's own example; otherwise, with the indices of [toCut]
    increasing, the [k]-th cut deletes line [i_k + k] instead of [i_k]
    ([cut_positions], [drop_positions]), keeping credential lines and
    deleting unrelated ones. *)

From stdpp Require Import sorting.
From S2P Require Import Prelude GoStrings.

(** The line terminator ["\n"]. *)
Definition nl : ascii := "010"%char.
Definition newline : string := String nl "".

(** A piece of text without a line terminator. *)
Definition no_nl (s : string) : Prop := index s newline = None.

(** Lines 253-261 (and 282-290): [out += line; out += "\n"] for each line. *)
Definition remake (lines : list string) : string :=
  fold_left (fun out line => out +:+ line +:+ newline) lines "".

(** The rewrite of one line in the loop of lines 243-251. *)
Definition sub_one (prefix value line : string) : string :=
  if has_prefix line prefix then prefix +:+ " " +:+ value else line.

(** Lines 240-262. *)
Definition subLine (body prefix value : string) : string :=
  remake (map (sub_one prefix value) (split body nl)).

(** Lines 269-275: for each line [i], once per matching prefix, [i] is
    appended to [toCut]. *)
Fixpoint toCut (i : nat) (lines prefixes : list string) : list nat :=
  match lines with
  | [] => []
  | line :: rest =>
      map (fun _ => i) (List.filter (has_prefix line) prefixes) ++ toCut (S i) rest prefixes
  end.

(** Line 279: [lines = append(lines[:i], lines[i+1:]...)]; the slice
    expression [lines[i+1:]] panics unless [i+1 <= len(lines)]. *)
Definition cut (lines : list string) (i : nat) : res (list string) :=
  if Nat.ltb i (length lines) then Ok (take i lines ++ drop (S i) lines)
  else Panic PanicSliceBounds.

(** Lines 278-280: the cuts, in the order of [toCut], on the shrinking
    slice. *)
Fixpoint cut_all (lines : list string) (idx : list nat) : res (list string) :=
  match idx with
  | [] => Ok lines
  | i :: idx' => lines' ← cut lines i; cut_all lines' idx'
  end.

(** Lines 265-291. *)
Definition stripLines (body : string) (prefixes : list string) : res string :=
  let lines := split body nl in
  lines' ← cut_all lines (toCut 0 lines prefixes);
  Ok (remake lines').

(** The positions of the request that the cut loop deletes when the
    indices grow: the [k]-th cut is applied to a slice that has already
    lost [k] earlier lines, so it removes line [i_k + k]. *)
Fixpoint cut_positions (k : nat) (idx : list nat) : list nat :=
  match idx with
  | [] => []
  | i :: idx' => (i + k) :: cut_positions (S k) idx'
  end.

(** The lines whose position, counted from [p], is not in [ps]. *)
Fixpoint drop_positions (ps : list nat) (p : nat) (lines : list string) : list string :=
  match lines with
  | [] => []
  | l :: ls =>
      if bool_decide (p ∈ ps) then drop_positions ps (S p) ls
      else l :: drop_positions ps (S p) ls
  end.

(** What the spec (section 4.5) asks of [StripLines]: keep exactly the
    lines that start with none of the prefixes. *)
Definition strip_spec (body : string) (prefixes : list string) : string :=
  remake (List.filter (fun line => negb (existsb (has_prefix line) prefixes)) (split body nl)).

(** The request of the spec's example (section 8), with and without the
    final terminator a raw HTTP request has. *)
Definition spec_request : string :=
  "GET / HTTP/1.1" +:+ newline +:+ "Authorization: Bearer x" +:+ newline +:+
  "Host: a" +:+ newline +:+ "Cookie: y".

Definition auth_headers : list string := ["Authorization:"; "Cookie:"].

Definition one_header_request : string :=
  "GET / HTTP/1.1" +:+ newline +:+ "Authorization: Bearer x" +:+ newline +:+ "Host: a".

(** ** Lemmas *)

Lemma remake_cons (x : string) (xs : list string) (acc : string) :
  fold_left (fun out line => out +:+ line +:+ newline) (x :: xs) acc =
  fold_left (fun out line => out +:+ line +:+ newline) xs (acc +:+ x +:+ newline).
Proof. reflexivity. Qed.

Lemma remake_acc (lines : list string) (acc : string) :
  lines <> [] ->
  fold_left (fun out line => out +:+ line +:+ newline) lines acc =
  acc +:+ String.concat newline lines +:+ newline.
Proof.
  revert acc. induction lines as [|x xs IH]; intros acc Hne; [done|].
  destruct xs as [|y ys]; [done|].
  rewrite remake_cons, IH by done.
  change (String.concat newline (x :: y :: ys)) with
         (x +:+ newline +:+ String.concat newline (y :: ys)).
  by rewrite !str_app_assoc.
Qed.

(** Rebuilding the pieces of [Split(body, "\n")] gives [body] and one
    more terminator. *)
Lemma remake_split (body : string) : remake (split body nl) = body +:+ newline.
Proof.
  unfold remake. rewrite remake_acc by apply split_nonnil.
  change (String.concat newline (split body nl)) with
         (String.concat (String nl "") (split body nl)).
  by rewrite split_concat.
Qed.

Lemma toCut_length_filter (i : nat) (lines prefixes : list string) :
  Forall (fun line => length (List.filter (has_prefix line) prefixes) <= 1) lines ->
  length (toCut i lines prefixes) =
  length (List.filter (fun line => existsb (has_prefix line) prefixes) lines).
Proof.
  revert i. induction lines as [|l ls IH]; intros i Hall; [done|].
  inversion Hall as [|? ? Hl Hls]; subst. cbn [toCut List.filter].
  rewrite length_app, length_map, IH by done.
  destruct (List.filter (has_prefix l) prefixes) as [|p [|q qs]] eqn:Hf; cbn in Hl |- *; [| |lia].
  - replace (existsb (has_prefix l) prefixes) with false; [done|].
    symmetry. apply not_true_iff_false. rewrite existsb_exists. intros (p & Hp & Hpl).
    assert (In p (List.filter (has_prefix l) prefixes)) as Hin by (apply filter_In; done).
    by rewrite Hf in Hin.
  - replace (existsb (has_prefix l) prefixes) with true; [done|].
    symmetry. apply existsb_exists. exists p.
    assert (In p (List.filter (has_prefix l) prefixes)) as Hin by (rewrite Hf; left; done).
    by apply filter_In in Hin.
Qed.

Lemma toCut_nil (i : nat) (lines prefixes : list string) :
  toCut i lines prefixes = [] ->
  Forall (fun line => existsb (has_prefix line) prefixes = false) lines.
Proof.
  revert i. induction lines as [|l ls IH]; intros i H; [constructor|].
  cbn in H. apply app_eq_nil in H as [Hl Hls].
  constructor; [|by eapply IH].
  apply map_eq_nil in Hl. apply not_true_iff_false. rewrite existsb_exists.
  intros (p & Hp & Hpl).
  assert (In p (List.filter (has_prefix l) prefixes)) as Hin by (apply filter_In; done).
  by rewrite Hl in Hin.
Qed.

Lemma filter_keep_all (lines prefixes : list string) :
  Forall (fun line => existsb (has_prefix line) prefixes = false) lines ->
  List.filter (fun line => negb (existsb (has_prefix line) prefixes)) lines = lines.
Proof.
  induction 1 as [|l ls Hl _ IH]; [done|]. cbn. by rewrite Hl, IH.
Qed.

(** A single cut index [k] (counted from [i]) names the one header line,
    and deleting it is what [strip_spec]'s filter does. *)
Lemma toCut_single (i k : nat) (lines prefixes : list string) :
  toCut i lines prefixes = [k] ->
  i <= k /\ k - i < length lines /\
  take (k - i) lines ++ drop (S (k - i)) lines =
  List.filter (fun line => negb (existsb (has_prefix line) prefixes)) lines.
Proof.
  revert i. induction lines as [|l ls IH]; intros i H; [done|].
  cbn [toCut] in H.
  destruct (List.filter (has_prefix l) prefixes) as [|p ps] eqn:Hf.
  - cbn in H. destruct (IH (S i) H) as (Hik & Hlt & Heq).
    assert (existsb (has_prefix l) prefixes = false) as Hl.
    { apply not_true_iff_false. rewrite existsb_exists. intros (p & Hp & Hpl).
      assert (In p (List.filter (has_prefix l) prefixes)) as Hin by (apply filter_In; done).
      by rewrite Hf in Hin. }
    replace (k - i) with (S (k - S i)) by lia. cbn. rewrite Hl, <- Heq.
    split; [lia | split; [lia | done]].
  - cbn in H. injection H as <- Hrest.
    apply app_eq_nil in Hrest as [Hps Hnil]. apply map_eq_nil in Hps. subst ps.
    assert (existsb (has_prefix l) prefixes = true) as Hl.
    { apply existsb_exists. exists p.
      assert (In p (List.filter (has_prefix l) prefixes)) as Hin by (rewrite Hf; left; done).
      by apply filter_In in Hin. }
    replace (i - i) with 0 by lia. cbn. rewrite Hl. cbn.
    rewrite filter_keep_all by (eapply toCut_nil; exact Hnil).
    split; [lia | split; [lia | done]].
Qed.

Lemma split_snoc_newline (s : string) : split (s +:+ newline) nl = split s nl ++ [""].
Proof.
  induction s as [|c s IH]; [done|]. cbn [String.append split]. rewrite IH.
  case_bool_decide; [done|]. destruct (split s nl) eqn:Hs; [by apply split_nonnil in Hs | done].
Qed.

Lemma no_nl_app (x y : string) : no_nl x -> no_nl y -> no_nl (x +:+ y).
Proof.
  unfold no_nl, newline. induction x as [|c x IH]; intros Hx Hy; [done|].
  rewrite index_unfold in Hx |- *. cbn [String.append has_prefix] in *.
  destruct (bool_decide (nl = c)); cbn in *; [done|].
  destruct (index x _); [done|]. by rewrite IH.
Qed.

(** Splitting the rebuilt text gives the lines back, and the empty piece
    after the terminator [remake] appends. *)
Lemma split_remake (lines : list string) :
  Forall no_nl lines -> split (remake lines) nl = lines ++ [""].
Proof.
  intros Hall. destruct lines as [|l ls]; [done|].
  unfold remake. rewrite remake_acc by done. cbn [String.append].
  rewrite split_snoc_newline. f_equal. by apply concat_split.
Qed.

(** The lines of [subLine]'s output: each line of the input, rewritten
    when it starts with [prefix], and the empty piece after the final
    terminator. *)
Lemma split_subLine (body prefix value : string) :
  no_nl prefix -> no_nl value ->
  split (subLine body prefix value) nl = map (sub_one prefix value) (split body nl) ++ [""].
Proof.
  intros Hp Hv. unfold subLine. apply split_remake.
  apply Forall_map. eapply Forall_impl; [apply split_pieces_no_sep|].
  intros line Hl. unfold sub_one. destruct (has_prefix line prefix); [|done].
  apply no_nl_app; [done|]. by apply no_nl_app.
Qed.

Lemma elem_of_split_subLine (body prefix value line : string) :
  no_nl prefix -> no_nl value ->
  In line (split (subLine body prefix value) nl) <->
  line = "" \/ exists l, In l (split body nl) /\ line = sub_one prefix value l.
Proof.
  intros Hp Hv. rewrite split_subLine, in_app_iff, in_map_iff by done. cbn. naive_solver.
Qed.

(** Lines without the header are left as they are by [subLine]'s loop. *)
Lemma sub_one_lines (body prefix value : string) :
  (forall line, In line (split body nl) -> has_prefix line prefix = false) ->
  map (sub_one prefix value) (split body nl) = split body nl.
Proof.
  intros Habs. rewrite (map_ext_in _ id); [apply map_id|].
  intros line Hin. unfold sub_one. by rewrite Habs.
Qed.

(** After the driver's two calls (lines 195-196), every line of the text
    that starts with one of the credential headers carries the new value:
    no line keeps an old credential. *)
Lemma credential_lines (body auth cookie line : string) :
  no_nl auth -> no_nl cookie ->
  In line (split (subLine (subLine body "Authorization:" auth) "Cookie:" cookie) nl) ->
  (has_prefix line "Authorization:" = true -> line = "Authorization:" +:+ " " +:+ auth) /\
  (has_prefix line "Cookie:" = true -> line = "Cookie:" +:+ " " +:+ cookie).
Proof.
  intros Ha Hc.
  assert (no_nl "Authorization:" /\ no_nl "Cookie:") as [HA HC] by (split; reflexivity).
  rewrite elem_of_split_subLine by done.
  intros [-> | (l & Hl & ->)]; [split; intros Hp; cbn in Hp; discriminate Hp|].
  unfold sub_one. destruct (has_prefix l "Cookie:") eqn:Hlc.
  { split; [intros Hp; cbn in Hp; discriminate Hp | intros _; reflexivity]. }
  split; [|congruence].
  rewrite elem_of_split_subLine in Hl by done.
  destruct Hl as [-> | (l0 & _ & ->)]; [intros Hp; cbn in Hp; discriminate Hp|].
  unfold sub_one. destruct (has_prefix l0 "Authorization:") eqn:E; intros; congruence.
Qed.

(** *** The cut loop with growing indices *)

Lemma drop_positions_nil (p : nat) (lines : list string) : drop_positions [] p lines = lines.
Proof.
  revert p. induction lines as [|l ls IH]; intros p; cbn; [done|].
  rewrite bool_decide_false by apply not_elem_of_nil. by rewrite IH.
Qed.

Lemma Forall_drop_positions (P : string -> Prop) (ps : list nat) (p : nat) (lines : list string) :
  Forall P lines -> Forall P (drop_positions ps p lines).
Proof.
  intros Hall. revert p. induction Hall as [|l ls Hl _ IH]; intros p; cbn; [constructor|].
  case_bool_decide; [apply IH | constructor; [exact Hl | apply IH]].
Qed.

(** Positions shift with the start. *)
Lemma drop_positions_shift (ps : list nat) (p : nat) (lines : list string) :
  drop_positions (S <$> ps) (S p) lines = drop_positions ps p lines.
Proof.
  revert p. induction lines as [|l ls IH]; intros p; cbn; [done|].
  assert (S p ∈ S <$> ps <-> p ∈ ps) as Hiff.
  { rewrite list_elem_of_fmap. split; [by intros (q & [= ->] & ?) | eauto]. }
  by rewrite IH, (bool_decide_ext _ _ Hiff).
Qed.

(** A position before the start is never met. *)
Lemma drop_positions_skip (q : nat) (ps : list nat) (p : nat) (lines : list string) :
  q < p -> drop_positions (q :: ps) p lines = drop_positions ps p lines.
Proof.
  revert p. induction lines as [|l ls IH]; intros p Hq; cbn; [done|].
  rewrite IH by lia. assert (p ∈ q :: ps <-> p ∈ ps) as Hiff.
  { rewrite elem_of_cons. split; [intros [->|]; [lia|done] | by right]. }
  by rewrite (bool_decide_ext _ _ Hiff).
Qed.

(** Deleting line [i] first, then the positions [ps] of the shorter list
    (all at or after [i]), deletes [i] and the positions after it, one
    further on, of the original. *)
Lemma drop_positions_delete (ps : list nat) (p i : nat) (lines : list string) :
  (forall q, q ∈ ps -> p + i <= q) -> i < length lines ->
  drop_positions ps p (delete i lines) = drop_positions ((p + i) :: (S <$> ps)) p lines.
Proof.
  revert p i. induction lines as [|l ls IH]; intros p [|i] Hps Hi; cbn in Hi |- *; try lia.
  - rewrite Nat.add_0_r, bool_decide_true by by left.
    by rewrite drop_positions_skip, drop_positions_shift by lia.
  - rewrite bool_decide_false by (intros ?%Hps; lia).
    rewrite bool_decide_false.
    2: { rewrite elem_of_cons, list_elem_of_fmap. intros [? | (q & -> & ?%Hps)]; lia. }
    rewrite IH; [|intros q ?%Hps; lia | lia]. by replace (S p + i) with (p + S i) by lia.
Qed.

Lemma elem_of_cut_positions (k : nat) (idx : list nat) (q : nat) :
  q ∈ cut_positions k idx -> exists i, i ∈ idx /\ i + k <= q.
Proof.
  revert k. induction idx as [|i idx IH]; intros k; cbn; [by intros ?%elem_of_nil|].
  rewrite elem_of_cons. intros [-> | (j & ? & ?)%IH]; [exists i; split; [left | lia]|].
  exists j. split; [by right | lia].
Qed.

Lemma cut_positions_S (k : nat) (idx : list nat) :
  cut_positions (S k) idx = S <$> cut_positions k idx.
Proof.
  revert k. induction idx as [|i idx IH]; intros k; cbn; [done|]. rewrite IH. do 2 f_equal. lia.
Qed.

(** [toCut] grows: its indices start at [i]; when no line starts with
    two of the prefixes they are strictly increasing. *)
Lemma toCut_ge (i : nat) (lines prefixes : list string) (x : nat) :
  x ∈ toCut i lines prefixes -> i <= x.
Proof.
  revert i. induction lines as [|l ls IH]; intros i; cbn; [by intros ?%elem_of_nil|].
  rewrite elem_of_app, list_elem_of_fmap. intros [(? & -> & _) | ?%IH]; lia.
Qed.

Lemma toCut_sorted (i : nat) (lines prefixes : list string) :
  Forall (fun line => length (List.filter (has_prefix line) prefixes) <= 1) lines ->
  StronglySorted lt (toCut i lines prefixes).
Proof.
  revert i. induction lines as [|l ls IH]; intros i Hall; cbn; [constructor|].
  inversion Hall as [|? ? Hl Hls]; subst.
  destruct (List.filter (has_prefix l) prefixes) as [|p [|q qs]]; cbn in Hl |- *; [by apply IH | |lia].
  constructor; [by apply IH|]. apply Forall_forall. intros x ?%toCut_ge. lia.
Qed.

(** [stripLines] returns or panics; it never calls [fatal]. *)
Lemma cut_all_avoids (P : fatal_reason -> bool) (lines : list string) (idx : list nat) :
  avoids P (cut_all lines idx) = true.
Proof.
  revert lines. induction idx as [|i idx IH]; intros lines; cbn; [done|].
  apply bind_avoids; [|intros ??]; first [apply IH | unfold cut; by case_match].
Qed.

Lemma stripLines_avoids (P : fatal_reason -> bool) (body : string) (prefixes : list string) :
  avoids P (stripLines body prefixes) = true.
Proof. unfold stripLines. apply bind_avoids; [apply cut_all_avoids | done]. Qed.

#[export] Hint Resolve stripLines_avoids : corr.

(** A text without the header line comes out of [subLine] unchanged but
    for one more ["\n"] at its end: not a normalisation of the last
    terminator (spec section 4.5), an addition. *)
Lemma subLine_absent (body prefix value : string) :
  (forall line, In line (split body nl) -> has_prefix line prefix = false) ->
  subLine body prefix value = body +:+ newline.
Proof.
  intros Habs. unfold subLine. rewrite sub_one_lines by done. apply remake_split.
Qed.

(** (C6) When at most one line is to be cut (one header line, matching one
    prefix), [stripLines] removes exactly that line and keeps the others in
    order, as the spec's [StripLines] does. *)
Theorem stripLines_single (body : string) (prefixes : list string) :
  length (toCut 0 (split body nl) prefixes) <= 1 ->
  stripLines body prefixes = Ok (strip_spec body prefixes).
Proof.
  intros Hlen. unfold stripLines, strip_spec.
  destruct (toCut 0 (split body nl) prefixes) as [|k [|k' ks]] eqn:Ht; cbn in Hlen |- *; [| |lia].
  - by rewrite filter_keep_all by (eapply toCut_nil; exact Ht).
  - destruct (toCut_single 0 k _ _ Ht) as (_ & Hlt & Heq).
    rewrite Nat.sub_0_r in Hlt, Heq. unfold cut.
    rewrite (proj2 (Nat.ltb_lt _ _) Hlt). cbn. by rewrite Heq.
Qed.

(** (C30) Exactly when [stripLines] panics: when the [k]-th index of
    [toCut] (counted from 0) is at least the number of pieces minus [k].
    The indices are not shifted after each deletion (line 279), so any
    request whose last header line is among the last [k] pieces of the
    text, after [k] earlier header lines, panics. *)
Theorem stripLines_panic_iff (body : string) (prefixes : list string) :
  stripLines body prefixes = Panic PanicSliceBounds <->
  exists k i, toCut 0 (split body nl) prefixes !! k = Some i /\
              length (split body nl) <= i + k.
Proof.
  (* The cut loop panics exactly when some cut, the [k]-th, names a line
     at or beyond the end of the slice, which has lost [k] lines by then. *)
  assert (forall lines idx, cut_all lines idx = Panic PanicSliceBounds <->
            exists k i, idx !! k = Some i /\ length lines <= i + k) as Hcut.
  { intros lines idx. revert lines. induction idx as [|i idx IH]; intros lines; cbn [cut_all].
    - split; [done|]. intros (k & i & H & _). by rewrite lookup_nil in H.
    - unfold cut. destruct (Nat.ltb_spec i (length lines)) as [Hi|Hi]; cbn.
      + rewrite IH, length_app, length_take, length_drop. split.
        * intros (k & j & Hj & Hle). exists (S k), j. split; [done | lia].
        * intros ([|k] & j & Hj & Hle); cbn in Hj; [simplify_eq; lia|].
          exists k, j. split; [done | lia].
      + split; [intros _; exists 0, i; split; [done | lia] | done]. }
  unfold stripLines. rewrite <- Hcut.
  destruct (cut_all _ _); cbn; split; congruence.
Qed.

(** (C33) What [stripLines] does when it does not panic: if no line
    starts with two of the prefixes (as for ["Authorization:"] and
    ["Cookie:"]) and no cut is out of range, the [k]-th index [i_k] of
    [toCut] deletes line [i_k + k] of the request, not line [i_k]; the
    other lines are kept in order.  With one header line this is the
    spec's filter; with more, header lines survive and other lines are
    lost. *)
Theorem stripLines_cuts (body : string) (prefixes : list string) :
  Forall (fun line => length (List.filter (has_prefix line) prefixes) <= 1) (split body nl) ->
  (forall k i, toCut 0 (split body nl) prefixes !! k = Some i -> i + k < length (split body nl)) ->
  exists out, stripLines body prefixes = Ok out /\
    split out nl =
      drop_positions (cut_positions 0 (toCut 0 (split body nl) prefixes)) 0 (split body nl) ++ [""].
Proof.
  intros Hone Hb.
  (* The cut loop over growing indices, none of which panics, deletes the
     lines [cut_positions 0 idx]. *)
  assert (forall lines idx, StronglySorted lt idx ->
            (forall k i, idx !! k = Some i -> i + k < length lines) ->
            cut_all lines idx = Ok (drop_positions (cut_positions 0 idx) 0 lines)) as Hcut.
  { clear Hone Hb. intros lines idx.
    revert lines. induction idx as [|i idx IH]; intros lines Hs Hb; cbn [cut_all].
    { by rewrite drop_positions_nil. }
    inversion Hs as [|? ? Hs' Hlt]; subst.
    assert (i < length lines) as Hi by (specialize (Hb 0 i eq_refl); lia).
    unfold cut. rewrite (proj2 (Nat.ltb_lt _ _) Hi), bind_Ok, <- delete_take_drop.
    rewrite IH; [|done|].
    - rewrite drop_positions_delete; [cbn; by rewrite Nat.add_0_r, cut_positions_S | | done].
      intros q (j & Hj & Hjq)%elem_of_cut_positions. rewrite Forall_forall in Hlt.
      specialize (Hlt j Hj). lia.
    - intros k j Hj. rewrite length_delete by (apply lookup_lt_is_Some; lia).
      specialize (Hb (S k) j Hj). lia.
  }
  unfold stripLines. rewrite Hcut by (done || by apply toCut_sorted).
  rewrite bind_Ok. eexists; split; [reflexivity|]. apply split_remake.
  apply Forall_drop_positions, split_pieces_no_sep.
Qed.

(** ** Witnesses *)

Lemma stripLines_single_witness :
  length (toCut 0 (split one_header_request nl) auth_headers) <= 1 /\
  stripLines one_header_request auth_headers = Ok (strip_spec one_header_request auth_headers).
Proof.
  assert (length (toCut 0 (split one_header_request nl) auth_headers) <= 1) as H
    by (vm_compute; lia).
  split; [exact H | exact (stripLines_single _ _ H)].
Defined.

Lemma stripLines_panic_iff_witness :
  toCut 0 (split spec_request nl) auth_headers !! 1 = Some 3 /\
  length (split spec_request nl) <= 3 + 1 /\
  stripLines spec_request auth_headers = Panic PanicSliceBounds.
Proof.
  assert (toCut 0 (split spec_request nl) auth_headers !! 1 = Some 3) as Hk by (vm_compute; reflexivity).
  assert (length (split spec_request nl) <= 3 + 1) as Hl by (vm_compute; lia).
  split_and!; [exact Hk | exact Hl |].
  apply (stripLines_panic_iff spec_request auth_headers). exists 1, 3. split; [exact Hk | exact Hl].
Defined.

Lemma stripLines_cuts_witness :
  let req := "GET / HTTP/1.1" +:+ newline +:+ "Authorization: Bearer x" +:+ newline +:+
             "Cookie: y" +:+ newline +:+ "Host: a" in
  Forall (fun line => length (List.filter (has_prefix line) auth_headers) <= 1) (split req nl) /\
  (forall k i, toCut 0 (split req nl) auth_headers !! k = Some i -> i + k < length (split req nl)) /\
  exists out, stripLines req auth_headers = Ok out /\
    split out nl =
      drop_positions (cut_positions 0 (toCut 0 (split req nl) auth_headers)) 0 (split req nl) ++ [""].
Proof.
  intros req.
  assert (Forall (fun line => length (List.filter (has_prefix line) auth_headers) <= 1)
            (split req nl)) as Hone by (vm_compute; repeat constructor; lia).
  assert (forall k i, toCut 0 (split req nl) auth_headers !! k = Some i ->
            i + k < length (split req nl)) as Hb.
  { intros k i. vm_compute. destruct k as [|[|k]]; intros [= <-]; lia. }
  split_and!; [exact Hone | exact Hb | exact (stripLines_cuts req auth_headers Hone Hb)].
Defined.
