(* ===== verification/Tables.v ===== *)
(** * TranslationComposer and the token replacers of [src/correlator.go]

    The identifier databases are Go maps [map[string]string] from a
    symbolic name to a value.  [compose] (lines 413-426) joins [from] and
    [to] on their names into a value-to-value table; [flip] (lines 429-437)
    swaps keys and values; [left2right] (lines 341-348) rewrites a text by
    [strings.ReplaceAll(part, key, value)] for every entry of a table;
    [right2left] (lines 327-337) does the same with the flipped table (it
    is never called).

    All four iterate a Go map with [range], whose order Go leaves
    unspecified (and randomises).  The model makes the order explicit: the
    class [MapIter] gives the sequence of entries a [range] loop visits,
    and [MapIterOk] says that it visits each entry once, i.e. that it is a
    permutation of [map_to_list].  The theorems hold for every such order;
    [map_iter_sorted] (stdpp's own order) and [map_iter_rev] are two
    instances, used to show where the result depends on the order.

    Theorems: [compose] is the relational join of [from] and [to] when
    [from] is injective, whatever the order, and then equals stdpp's map
    composition [to ∘ₘ flip from] (a reference definition); in general
    the last entry visited wins, so for a non-injective [from] two orders
    give two tables; [left2right] leaves a text without keys unchanged
    and gives [ReplaceAll(part, k, v)] in every order when [k] is the only
    key present. *)

From S2P Require Import Prelude GoStrings.

(** ** Map iteration *)

Class MapIter := map_iter : gmap string string -> list (string * string).

Class MapIterOk `{MapIter} :=
  map_iter_perm : forall m, map_iter m ≡ₚ map_to_list m.

#[export] Instance map_iter_sorted : MapIter := map_to_list.
#[export] Instance map_iter_sorted_ok : @MapIterOk map_iter_sorted.
Proof. intros m. done. Qed.

Definition map_iter_rev : MapIter := fun m => reverse (map_to_list m).
Section Tables.
Context `{MapIter}.

(** One iteration of the loop of lines 416-423. *)
Definition compose_step (to out : gmap string string) (kv : string * string) :=
  let '(fKey, fVal) := kv in
  match to !! fKey with
  | None => out
  | Some tVal => <[fVal := tVal]> out
  end.

(** Lines 413-426. *)
Definition compose (from to : gmap string string) : gmap string string :=
  fold_left (compose_step to) (map_iter from) ∅.

(** Lines 429-437. *)
Definition flip (m : gmap string string) : gmap string string :=
  fold_left (fun out kv => <[kv.2 := kv.1]> out) (map_iter m) ∅.

(** Lines 341-348: [part = strings.ReplaceAll(part, identifier, id)] for
    each entry [identifier -> id] of the table. *)
Definition left2right (from : gmap string string) (part : string) : string :=
  fold_left (fun part kv => replace_all part kv.1 kv.2) (map_iter from) part.

(** Lines 327-337. *)
Definition right2left (to : gmap string string) (part : string) : string :=
  let to := flip to in
  fold_left (fun part kv => replace_all part kv.1 kv.2) (map_iter to) part.

End Tables.

(** ** The join that [compose] computes *)

(** The entries [(fVal, tVal)] of [compose], in the iteration order. *)
Fixpoint join (to : gmap string string) (l : list (string * string)) : list (string * string) :=
  match l with
  | [] => []
  | (k, v) :: l' =>
      match to !! k with
      | Some t => (v, t) :: join to l'
      | None => join to l'
      end
  end.

(** A map whose values are pairwise distinct (no two names share a
    value). *)
Definition injective_map (m : gmap string string) : Prop :=
  forall k1 k2 v, m !! k1 = Some v -> m !! k2 = Some v -> k1 = k2.

Lemma map_iter_rev_ok : @MapIterOk map_iter_rev.
Proof. intros m. unfold map_iter, map_iter_rev. apply reverse_Permutation. Qed.

(** ** Lemmas *)

Lemma fold_insert (l : list (string * string)) (acc : gmap string string) :
  fold_left (fun out kv => <[kv.1 := kv.2]> out) l acc = list_to_map (reverse l) ∪ acc.
Proof.
  revert acc. induction l as [|[k v] l IH]; intros acc; cbn [fold_left].
  - cbn. by rewrite (left_id_L ∅ (∪)).
  - rewrite IH, reverse_cons, list_to_map_app. cbn.
    rewrite (insert_union_singleton_l acc), (insert_union_singleton_l ∅).
    by rewrite (right_id_L ∅ (∪)), (assoc_L (∪)).
Qed.

(** A loop whose step inserts [v -> to[k]] for the entries [(k, v)] with
    [k] in [to] inserts the entries of [join]. *)
Lemma fold_join_step (to : gmap string string)
    (f : gmap string string -> string * string -> gmap string string) :
  (forall out k v, f out (k, v) = match to !! k with None => out | Some t => <[v := t]> out end) ->
  forall l acc, fold_left f l acc = fold_left (fun out kv => <[kv.1 := kv.2]> out) (join to l) acc.
Proof.
  intros Hf l. induction l as [|[k v] l IH]; intros acc; [done|].
  cbn [fold_left join]. rewrite Hf. destruct (to !! k); apply IH.
Qed.

Lemma elem_of_join (to : gmap string string) (l : list (string * string)) v t :
  (v, t) ∈ join to l <-> exists k, (k, v) ∈ l /\ to !! k = Some t.
Proof.
  induction l as [|[k' v'] l IH]; cbn.
  - split; [by intros ?%elem_of_nil | by intros (? & ?%elem_of_nil & _)].
  - setoid_rewrite elem_of_cons.
    destruct (to !! k') as [t'|] eqn:Ht; rewrite ?elem_of_cons, IH.
    + split.
      * intros [[= -> ->] | (k & ? & ?)]; eauto.
      * intros (k & [[= -> ->] | Hin] & Hk); [left; congruence | right; eauto].
    + split.
      * intros (k & ? & ?). eauto.
      * intros (k & [[= -> ->] | Hin] & Hk); [congruence | eauto].
Qed.

Lemma NoDup_join (to : gmap string string) (l : list (string * string)) :
  NoDup l -> (forall k1 k2 v, (k1, v) ∈ l -> (k2, v) ∈ l -> k1 = k2) ->
  NoDup (join to l).*1.
Proof.
  induction l as [|[k v] l IH]; intros Hnd Hinj; cbn; [constructor|].
  apply NoDup_cons in Hnd as [Hnin Hnd].
  assert (forall k1 k2 v', (k1, v') ∈ l -> (k2, v') ∈ l -> k1 = k2) as Hinj'.
  { intros k1 k2 v' ? ?. eapply Hinj; rewrite elem_of_cons; eauto. }
  destruct (to !! k) as [t|]; cbn; [|by apply IH].
  constructor; [|by apply IH].
  intros ([v' t'] & [= <-] & Hin)%list_elem_of_fmap.
  apply elem_of_join in Hin as (k' & Hk' & _).
  assert (k' = k) as -> by (eapply Hinj; rewrite elem_of_cons; eauto).
  done.
Qed.

Lemma left2right_fold_absent (l : list (string * string)) (part : string) :
  (forall kv, kv ∈ l -> index part kv.1 = None) ->
  fold_left (fun part kv => replace_all part kv.1 kv.2) l part = part.
Proof.
  induction l as [|kv l IH]; intros Habs; [done|]. cbn.
  rewrite replace_all_absent by (apply Habs; left).
  apply IH. intros kv' ?. apply Habs. by right.
Qed.

(** The map built from the entries of [join] answers the join, when the
    entries visited are distinct and no two names share a value. *)
Lemma fold_join_lookup (to : gmap string string) (l : list (string * string)) v t :
  NoDup l -> (forall k1 k2 v, (k1, v) ∈ l -> (k2, v) ∈ l -> k1 = k2) ->
  fold_left (fun out kv => <[kv.1 := kv.2]> out) (join to l) (∅ : gmap string string) !! v = Some t <->
  exists k, (k, v) ∈ l /\ to !! k = Some t.
Proof.
  intros Hnd Hinj. rewrite fold_insert, (right_id_L ∅ (∪)), <- elem_of_list_to_map.
  - by rewrite elem_of_reverse, elem_of_join.
  - rewrite fmap_reverse, reverse_Permutation. by apply NoDup_join.
Qed.

(** The loop of [flip] inserts the swapped entries. *)
Lemma fold_flip (l : list (string * string)) (acc : gmap string string) :
  fold_left (fun out kv => <[kv.2 := kv.1]> out) l acc =
  list_to_map (reverse (prod_swap <$> l)) ∪ acc.
Proof.
  rewrite <- fold_insert. revert acc. induction l as [|[k v] l IH]; intros acc; [done|]. apply IH.
Qed.

Lemma NoDup_snd (l : list (string * string)) :
  NoDup l -> (forall k1 k2 v, (k1, v) ∈ l -> (k2, v) ∈ l -> k1 = k2) -> NoDup l.*2.
Proof.
  induction l as [|[k v] l IH]; intros Hnd Hinj; cbn; [constructor|].
  apply NoDup_cons in Hnd as [Hnin Hnd]. constructor.
  - intros ([k' v'] & Hv & Hin)%list_elem_of_fmap. cbn in Hv. subst v'.
    assert (k' = k) as -> by (eapply Hinj; rewrite elem_of_cons; eauto). done.
  - apply IH; [done|]. intros k1 k2 v' ? ?. eapply Hinj; rewrite elem_of_cons; eauto.
Qed.

(** The last element of a list split around some element [y]. *)
Lemma snoc_split {A} (l l1 l2 : list A) (x y : A) :
  l ++ [x] = l1 ++ y :: l2 ->
  (l2 = [] /\ l = l1 /\ x = y) \/ exists l2', l2 = l2' ++ [x] /\ l = l1 ++ y :: l2'.
Proof.
  destruct l2 as [|z l2 _] using rev_ind; intros Heq.
  - apply app_inj_tail in Heq as [-> ->]. by left.
  - rewrite app_comm_cons, app_assoc in Heq. apply app_inj_tail in Heq as [-> ->]. right. eauto.
Qed.

Section Iteration.
Context `{Hok : MapIterOk}.

Lemma elem_of_map_iter (m : gmap string string) k v :
  (k, v) ∈ map_iter m <-> m !! k = Some v.
Proof. by rewrite (map_iter_perm m), elem_of_map_to_list. Qed.

Lemma map_iter_NoDup (m : gmap string string) : NoDup (map_iter m).
Proof. rewrite (map_iter_perm m). apply NoDup_map_to_list. Qed.

Lemma map_iter_inj (m : gmap string string) :
  injective_map m -> forall k1 k2 v, (k1, v) ∈ map_iter m -> (k2, v) ∈ map_iter m -> k1 = k2.
Proof. intros Hinj k1 k2 v. rewrite !elem_of_map_iter. apply Hinj. Qed.


(** ** Properties *)

(** (C7) Composition is the relational join: when no two names of [from]
    share a value, [compose from to] maps [v] to [t] exactly when some name
    [k] has [from[k] = v] and [to[k] = t], whatever order [range]
    visits [from] in. *)
Theorem compose_lookup (from to : gmap string string) v t :
  injective_map from ->
  compose from to !! v = Some t <-> exists k, from !! k = Some v /\ to !! k = Some t.
Proof.
  intros Hinj. unfold compose.
  rewrite (fold_join_step to (compose_step to)) by (intros; reflexivity).
  rewrite fold_join_lookup; [|apply map_iter_NoDup | by apply map_iter_inj].
  by setoid_rewrite elem_of_map_iter.
Qed.

(** (C31) Equivalence with a reference: when no two names of [from] share
    a value, [compose from to] is stdpp's map composition of [to] after
    the inverse table [flip from], whatever order [range] visits [from]
    in. *)
Theorem compose_is_map_compose (from to : gmap string string) :
  injective_map from -> compose from to = to ∘ₘ flip from.
Proof.
  intros Hinj.
  (* [flip] inverts a map whose values are pairwise distinct. *)
  assert (forall k v, flip from !! v = Some k <-> from !! k = Some v) as Hflip.
  { intros k v. unfold flip. rewrite fold_flip, (right_id_L ∅ (∪)), <- elem_of_list_to_map.
    - rewrite elem_of_reverse, list_elem_of_fmap, <- elem_of_map_iter. split.
      + by intros ([k' v'] & [= -> ->] & Hin).
      + intros Hin. by exists (k, v).
    - rewrite fmap_reverse, reverse_Permutation, <- list_fmap_compose.
      rewrite (list_fmap_ext _ snd); [|done].
      apply NoDup_snd; [apply map_iter_NoDup | by apply map_iter_inj]. }
  apply map_eq. intros v. apply option_eq. intros t.
  rewrite map_lookup_compose_Some. setoid_rewrite Hflip.
  unfold compose. rewrite (fold_join_step to (compose_step to)) by (intros; reflexivity).
  rewrite fold_join_lookup; [|apply map_iter_NoDup | by apply map_iter_inj].
  setoid_rewrite elem_of_map_iter. naive_solver.
Qed.

(** (C18) A text in which no key of the table occurs passes through
    [left2right] unchanged: identifiers missing from the composed table
    (composition gaps) are left as they are. *)
Theorem left2right_absent (tab : gmap string string) (part : string) :
  (forall k v, tab !! k = Some v -> index part k = None) ->
  left2right tab part = part.
Proof.
  intros Habs. apply left2right_fold_absent. intros [k v] Hin.
  apply elem_of_map_iter in Hin. by apply (Habs k v).
Qed.

(** (C32) Order independence when one identifier is present: if the
    text contains the name [k] of the table and no other name, and the
    value [v] brings in no other name either, [left2right] gives
    [ReplaceAll(part, k, v)] whatever order [range] visits the table in.
    The hypothesis is needed: with the overlapping identifiers [12] and
    [123], the segment ["123"] becomes ["456"] or ["993"] depending on
    the order. *)
Theorem left2right_single_key (tab : gmap string string) (part k v : string) :
  tab !! k = Some v ->
  (forall k' v', tab !! k' = Some v' -> k' <> k ->
     index part k' = None /\ index (replace_all part k v) k' = None) ->
  left2right tab part = replace_all part k v.
Proof.
  intros Hk Hothers. unfold left2right.
  assert ((k, v) ∈ map_iter tab) as Hin by by apply elem_of_map_iter.
  apply list_elem_of_split in Hin as (l1 & l2 & Hsplit).
  pose proof (map_iter_NoDup tab) as Hnd. rewrite Hsplit in Hnd.
  apply NoDup_app in Hnd as (_ & Hdisj & (Hnin & _)%NoDup_cons).
  assert (forall kv, kv ∈ l1 ++ l2 -> tab !! kv.1 = Some kv.2 /\ kv.1 <> k) as Hl.
  { intros [k' v'] Hin'. assert ((k', v') ∈ map_iter tab) as Hm%elem_of_map_iter.
    { rewrite Hsplit. set_solver. }
    split; [done|]. cbn. intros ->. rewrite Hk in Hm. injection Hm as <-.
    apply elem_of_app in Hin' as [H1 | H2]; [apply (Hdisj _ H1); left | done]. }
  rewrite Hsplit, fold_left_app. cbn [fold_left].
  rewrite (left2right_fold_absent l1 part).
  - apply left2right_fold_absent. intros kv Hkv.
    destruct (Hl kv) as [Hkv' Hne]; [set_solver|]. by apply (Hothers _ kv.2).
  - intros kv Hkv. destruct (Hl kv) as [Hkv' Hne]; [set_solver|]. by apply (Hothers _ kv.2).
Qed.

(** (C17) Last writer wins: whatever order [range] visits [from] in,
    [compose from to] maps [v] to [t] exactly when some entry [(k, v)]
    with [to[k] = t] is visited and no later entry with value [v] has a
    name in [to].  When two names share a value, the composed table thus
    depends on the iteration order, which Go leaves unspecified. *)
Theorem compose_last_wins (from to : gmap string string) v t :
  compose from to !! v = Some t <->
  exists l1 k l2, map_iter from = l1 ++ (k, v) :: l2 /\ to !! k = Some t /\
    Forall (fun kv => kv.2 = v -> to !! kv.1 = None) l2.
Proof.
  unfold compose. generalize (map_iter from) as l. intros l.
  induction l as [|[k' v'] l IH] using rev_ind.
  { cbn. rewrite lookup_empty. split; [done|]. by intros ([] & ? & ? & ? & _). }
  rewrite fold_left_app. cbn [fold_left compose_step].
  assert (forall l1 k l2, (l ++ [(k', v')]) = l1 ++ (k, v) :: l2 -> to !! k = Some t ->
            Forall (fun kv => kv.2 = v -> to !! kv.1 = None) l2 ->
            (v' = v /\ to !! k' = Some t) \/
            ((v' = v -> to !! k' = None) /\
             exists l2', l = l1 ++ (k, v) :: l2' /\ Forall (fun kv => kv.2 = v -> to !! kv.1 = None) l2'))
    as Hsplit.
  { intros l1 k l2 Heq Hk Hall.
    destruct (snoc_split _ _ _ _ _ Heq) as [(-> & -> & [= -> ->]) | (l2' & -> & ->)]; [by left|].
    apply Forall_app in Hall as [Hall [Hlast _]%Forall_cons]. right. eauto. }
  destruct (to !! k') as [t'|] eqn:Ht'; [destruct (decide (v' = v)) as [->|Hne]|].
  - rewrite lookup_insert_eq. split.
    + intros [= <-]. exists l, k', []. by rewrite Ht'.
    + intros (l1 & k & l2 & Heq & Hk & Hall).
      destruct (Hsplit _ _ _ Heq Hk Hall) as [[_ Hs] | [Hn _]]; [congruence|].
      specialize (Hn eq_refl). congruence.
  - rewrite lookup_insert_ne by done. rewrite IH. split.
    + intros (l1 & k & l2 & -> & Hk & Hall). exists l1, k, (l2 ++ [(k', v')]).
      split; [by rewrite <- app_assoc|]. split; [done|]. apply Forall_app. split; [done|].
      constructor; [|done]. cbn. by intros ->.
    + intros (l1 & k & l2 & Heq & Hk & Hall).
      destruct (Hsplit _ _ _ Heq Hk Hall) as [[? _] | [_ (l2' & -> & ?)]]; [congruence|].
      by exists l1, k, l2'.
  - rewrite IH. split.
    + intros (l1 & k & l2 & -> & Hk & Hall). exists l1, k, (l2 ++ [(k', v')]).
      split; [by rewrite <- app_assoc|]. split; [done|]. apply Forall_app. split; [done|].
      constructor; [|done]. by intros _.
    + intros (l1 & k & l2 & Heq & Hk & Hall).
      destruct (Hsplit _ _ _ Heq Hk Hall) as [[_ Hs] | [_ (l2' & -> & ?)]]; [congruence|].
      by exists l1, k, l2'.
Qed.

End Iteration.

(** ** Witnesses *)

Lemma injective_singleton (k v : string) : injective_map {[k := v]}.
Proof.
  intros k1 k2 v' H1 H2.
  apply lookup_singleton_Some in H1 as [<- _]. by apply lookup_singleton_Some in H2 as [<- _].
Qed.

Lemma compose_lookup_witness :
  @MapIterOk map_iter_sorted /\ injective_map {["id" := "v1"]} /\
  (compose {["id" := "v1"]} {["id" := "v2"]} !! "v1" = Some "v2" <->
   exists k, ({["id" := "v1"]} : gmap string string) !! k = Some "v1" /\ ({["id" := "v2"]} : gmap string string) !! k = Some "v2").
Proof.
  split; [exact map_iter_sorted_ok|].
  split; [apply injective_singleton|].
  exact (@compose_lookup map_iter_sorted map_iter_sorted_ok _ _ "v1" "v2" (injective_singleton "id" "v1")).
Defined.


Lemma left2right_absent_witness :
  @MapIterOk map_iter_sorted /\
  (forall k v, ({["widgetId" := "abc-123"]} : gmap string string) !! k = Some v -> index "/api/orders/42" k = None) /\
  left2right {["widgetId" := "abc-123"]} "/api/orders/42" = "/api/orders/42".
Proof.
  assert (forall k v, ({["widgetId" := "abc-123"]} : gmap string string) !! k = Some v -> index "/api/orders/42" k = None)
    as H.
  { intros k v [<- _]%lookup_singleton_Some. vm_compute. reflexivity. }
  split; [exact map_iter_sorted_ok | split; [exact H |]].
  exact (@left2right_absent map_iter_sorted map_iter_sorted_ok _ _ H).
Defined.

(** Two names sharing the value [x]: stdpp's order and its reverse, both
    valid orders of a Go [range], give [x -> 2] and [x -> 1]. *)
Lemma compose_last_wins_witness :
  let from : gmap string string := <["a" := "x"]> {["b" := "x"]} in
  let to : gmap string string := <["a" := "1"]> {["b" := "2"]} in
  @compose map_iter_sorted from to !! "x" = Some "2" /\
  @compose map_iter_rev from to !! "x" = Some "1".
Proof.
  intros from to. split.
  - apply (proj2 (@compose_last_wins map_iter_sorted from to "x" "2")).
    exists [("a", "x")], "b", []. split_and!; [vm_compute; reflexivity | reflexivity | constructor].
  - apply (proj2 (@compose_last_wins map_iter_rev from to "x" "1")).
    exists [("b", "x")], "a", []. split_and!; [vm_compute; reflexivity | reflexivity | constructor].
Defined.

Lemma compose_is_map_compose_witness :
  @MapIterOk map_iter_rev /\ injective_map {["id" := "v1"]} /\
  @compose map_iter_rev {["id" := "v1"]} {["id" := "v2"]} =
    ({["id" := "v2"]} : gmap string string) ∘ₘ @flip map_iter_rev {["id" := "v1"]}.
Proof.
  split; [exact map_iter_rev_ok|]. split; [apply injective_singleton|].
  exact (@compose_is_map_compose map_iter_rev map_iter_rev_ok _ _ (injective_singleton "id" "v1")).
Defined.

Lemma left2right_single_key_witness :
  let tab : gmap string string := <["widgetId" := "abc-123"]> {["orderId" := "o-7"]} in
  @MapIterOk map_iter_rev /\ tab !! "widgetId" = Some "abc-123" /\
  (forall k' v', tab !! k' = Some v' -> k' <> "widgetId" ->
     index "/w/widgetId" k' = None /\
     index (replace_all "/w/widgetId" "widgetId" "abc-123") k' = None) /\
  @left2right map_iter_rev tab "/w/widgetId" = replace_all "/w/widgetId" "widgetId" "abc-123".
Proof.
  intros tab. assert (tab !! "widgetId" = Some "abc-123") as Hk by reflexivity.
  assert (forall k' v', tab !! k' = Some v' -> k' <> "widgetId" ->
     index "/w/widgetId" k' = None /\
     index (replace_all "/w/widgetId" "widgetId" "abc-123") k' = None) as Ho.
  { intros k' v' Hk' Hne. apply lookup_insert_Some in Hk' as [[<- _] | [_ Hk']]; [done|].
    apply lookup_singleton_Some in Hk' as [<- _]. split; vm_compute; reflexivity. }
  split_and!; [exact map_iter_rev_ok | exact Hk | exact Ho |].
  exact (@left2right_single_key map_iter_rev map_iter_rev_ok tab _ _ _ Hk Ho).
Defined.
