(* ===== verification/Substitute.v ===== *)
(** * SubstitutionEngine: function [substitute] of [src/correlator.go]

    [substitute(replace, tab, item)] (lines 351-393) applies a replacer
    ([left2right] in both calls of [main]) to a Burp item: the path is
    parsed with [url.Parse] and reduced to [url.EscapedPath()], which drops
    the query string and fragment; the result is split on ["/"], every
    segment is replaced on its own, and the segments are rejoined with a
    ["/"] before each, of which the first is dropped ([after[1:]]).  Unless
    [-pathonly] is set, the request is then replaced as one block: its
    decoded [Body] under [-b64], its [Raw] text otherwise.  A path that
    [url.Parse] rejects ends the whole run through [fatal].

    [net/url] is a library the code only calls.  It is abstracted by the
    class [UrlParser] (the composition of [url.Parse] and [EscapedPath],
    [None] when parsing fails) with the law [UrlParserOk]: a plain path
    (bytes from the unreserved set and ["/"], starting with ["/"] but not
    ["//"]) is returned as it is, and a query string after it is dropped.
    [url_model] is one instance, for witnesses.

    Theorems: the path is rewritten segment by segment and rejoined
    ([substitute_path]); the identity replacer gives back exactly the
    escaped path, with its leading ["/"] ([substitute_id_path]); the body
    handling follows [-pathonly] and [-b64]; a parse failure is fatal; and
    the query string of the item is lost. *)

From S2P Require Import Prelude GoStrings Flags.

(** ** Burp items *)

(** The fields of [burpxml.Request] the code reads or writes. *)
Record request := mk_request { Raw : string; Body : string }.

(** The fields of [burpxml.Item] the code reads or writes; the others are
    carried along untouched and are not modelled. *)
Record item := mk_item { Url : string; Path : string; Request : request }.

Definition set_path (p : string) (it : item) : item :=
  mk_item (Url it) p (Request it).
Definition set_raw (r : string) (it : item) : item :=
  mk_item (Url it) (Path it) (mk_request r (Body (Request it))).
Definition set_body (b : string) (it : item) : item :=
  mk_item (Url it) (Path it) (mk_request (Raw (Request it)) b).

(** ** [net/url] *)

Class UrlParser := escaped_path : string -> option string.

(** Bytes that [EscapedPath] keeps as they are. *)
Definition plain_byte (c : ascii) : bool :=
  let n := nat_of_ascii c in
  (Nat.leb 97 n && Nat.leb n 122) || (Nat.leb 65 n && Nat.leb n 90) ||
  (Nat.leb 48 n && Nat.leb n 57) ||
  bool_decide (c ∈ ["-"; "."; "_"; "~"; "/"]%char).

Fixpoint plain_bytes (s : string) : bool :=
  match s with EmptyString => true | String c s' => plain_byte c && plain_bytes s' end.

(** Bytes of a plain query string: the plain ones, ["="] and ["&"]. *)
Fixpoint query_bytes (s : string) : bool :=
  match s with
  | EmptyString => true
  | String c s' => (plain_byte c || bool_decide (c ∈ ["="; "&"]%char)) && query_bytes s'
  end.

Definition plain_path (p : string) : bool :=
  plain_bytes p && has_prefix p "/" && negb (has_prefix p "//").

Class UrlParserOk `{UrlParser} := {
  escaped_plain : forall p, plain_path p = true -> escaped_path p = Some p;
  escaped_query : forall p q, plain_path p = true -> query_bytes q = true ->
    escaped_path (p +:+ "?" +:+ q) = Some p
}.

(** A model of [url.Parse] + [EscapedPath] for witnesses: control bytes
    are rejected; the fragment and query are cut off. *)
Definition ctl_byte (c : ascii) : bool :=
  Nat.ltb (nat_of_ascii c) 32 || Nat.eqb (nat_of_ascii c) 127.

Fixpoint has_ctl (s : string) : bool :=
  match s with EmptyString => false | String c s' => ctl_byte c || has_ctl s' end.

Fixpoint cut_at (stop : ascii -> bool) (s : string) : string :=
  match s with
  | EmptyString => ""
  | String c s' => if stop c then "" else String c (cut_at stop s')
  end.

#[export] Instance url_model : UrlParser := fun p =>
  if has_ctl p then None
  else Some (cut_at (fun c => bool_decide (c = "?"%char) || bool_decide (c = "#"%char)) p).

(** ** [substitute] *)

Definition slash : ascii := "/"%char.

Section Substitute.
Context `{UrlParser}.

(** Lines 362-372: [after += "/"; after += replace(tab, part)]. *)
Definition join_segments (replace : string -> string) (parts : list string) : string :=
  fold_left (fun after part => after +:+ "/" +:+ replace part) parts "".

(** Lines 351-393; [replace] is [replace(tab, _)]. *)
Definition substitute (fl : flags) (replace : string -> string) (it : item) : res item :=
  match escaped_path (Path it) with
  | None => Fatal ErrUrlParse
  | Some base =>
      let after := join_segments replace (split base slash) in
      let it := set_path (after.[1 :]) it in
      if skipBody fl then Ok it
      else if b64 fl then Ok (set_body (replace (Body (Request it))) it)
      else Ok (set_raw (replace (Raw (Request it))) it)
  end.

End Substitute.

Definition sample_item : item :=
  mk_item "https://example.test/a/b/c?x=1" "/a/b/c" (mk_request "GET /a/b/c HTTP/1.1" "").

Lemma plain_bytes_no_ctl (s : string) : plain_bytes s = true -> has_ctl s = false.
Proof.
  induction s as [|c s IH]; cbn; [done|].
  rewrite andb_true_iff. intros [Hc Hs]. rewrite IH by done.
  revert Hc. destruct c as [[] [] [] [] [] [] [] []]; vm_compute; done.
Qed.

Lemma query_bytes_no_ctl (s : string) : query_bytes s = true -> has_ctl s = false.
Proof.
  induction s as [|c s IH]; cbn; [done|].
  rewrite andb_true_iff. intros [Hc Hs]. rewrite IH by done.
  revert Hc. destruct c as [[] [] [] [] [] [] [] []]; vm_compute; done.
Qed.

Lemma plain_bytes_cut (s : string) :
  plain_bytes s = true ->
  cut_at (fun c => bool_decide (c = "?"%char) || bool_decide (c = "#"%char)) s = s.
Proof.
  induction s as [|c s IH]; cbn; [done|].
  rewrite andb_true_iff. intros [Hc Hs]. rewrite IH by done.
  revert Hc. destruct c as [[] [] [] [] [] [] [] []]; vm_compute; done.
Qed.

Lemma plain_bytes_app (s t : string) :
  plain_bytes (s +:+ t) = plain_bytes s && plain_bytes t.
Proof. induction s as [|c s IH]; cbn; [done|]. by rewrite IH, andb_assoc. Qed.

Lemma has_ctl_app (s t : string) : has_ctl (s +:+ t) = has_ctl s || has_ctl t.
Proof. induction s as [|c s IH]; cbn; [done|]. by rewrite IH, orb_assoc. Qed.

Lemma cut_at_app (stop : ascii -> bool) (s c t : string) (d : ascii) :
  cut_at stop s = s -> stop d = true -> cut_at stop (s +:+ String d t) = s.
Proof.
  revert c. induction s as [|a s IH]; intros c Hs Hd; cbn in *; [by rewrite Hd|].
  destruct (stop a); [done|]. injection Hs as Hs. by rewrite (IH c Hs Hd).
Qed.

#[export] Instance url_model_ok : @UrlParserOk url_model.
Proof.
  split.
  - intros p Hp. unfold plain_path in Hp. rewrite !andb_true_iff in Hp.
    destruct Hp as [[Hb _] _]. unfold escaped_path, url_model.
    by rewrite plain_bytes_no_ctl, plain_bytes_cut.
  - intros p q Hp Hq. unfold plain_path in Hp. rewrite !andb_true_iff in Hp.
    destruct Hp as [[Hb _] _]. unfold escaped_path, url_model.
    rewrite has_ctl_app, plain_bytes_no_ctl by done. cbn [has_ctl String.append].
    rewrite query_bytes_no_ctl by done. cbn.
    f_equal. apply (cut_at_app _ _ ""); [by apply plain_bytes_cut | done].
Qed.

(** ** Lemmas *)

Lemma join_segments_acc (replace : string -> string) (parts : list string) (acc : string) :
  parts <> [] ->
  fold_left (fun after part => after +:+ "/" +:+ replace part) parts acc =
  acc +:+ "/" +:+ String.concat "/" (map replace parts).
Proof.
  revert acc. induction parts as [|x xs IH]; intros acc Hne; [done|].
  destruct xs as [|y ys]; [done|].
  transitivity (fold_left (fun after part => after +:+ "/" +:+ replace part) (y :: ys)
                 (acc +:+ "/" +:+ replace x)); [reflexivity|].
  rewrite IH by done.
  change (String.concat "/" (map replace (x :: y :: ys))) with
         (replace x +:+ "/" +:+ String.concat "/" (map replace (y :: ys))).
  by rewrite !str_app_assoc.
Qed.

(** Dropping the doubled leading ["/"] (line 375) leaves the segments
    joined by ["/"]. *)
Lemma join_segments_drop (replace : string -> string) (parts : list string) :
  parts <> [] ->
  (join_segments replace parts).[1 :] = String.concat "/" (map replace parts).
Proof. intros Hne. unfold join_segments. by rewrite join_segments_acc. Qed.

Section Properties.
Context `{UrlParser}.

Lemma substitute_ok (fl : flags) (replace : string -> string) (it : item) base :
  escaped_path (Path it) = Some base ->
  substitute fl replace it =
  Ok (let it' := set_path (String.concat "/" (map replace (split base slash))) it in
      if skipBody fl then it'
      else if b64 fl then set_body (replace (Body (Request it))) it'
      else set_raw (replace (Raw (Request it))) it').
Proof.
  intros Hb. unfold substitute. rewrite Hb, join_segments_drop by apply split_nonnil.
  by destruct (skipBody fl), (b64 fl).
Qed.

(** [substitute] ends the run through [fatal] or returns; it never
    panics. *)
Lemma substitute_no_panic (fl : flags) (replace : string -> string) (it : item) :
  no_panic (substitute fl replace it) = true.
Proof. unfold substitute. repeat case_match; auto with corr. Qed.

Lemma substitute_avoids (fl : flags) (replace : string -> string) (it : item) :
  avoids late_exit (substitute fl replace it) = true.
Proof. unfold substitute. by repeat case_match. Qed.

(** ** Properties *)

(** (C8) Segment-local rewriting: the new path is the escaped path split
    on ["/"], each segment passed through the replacer on its own, and
    rejoined with ["/"]; the display URL is kept. *)
Theorem substitute_path (fl : flags) (replace : string -> string) (it : item) base :
  escaped_path (Path it) = Some base ->
  exists it', substitute fl replace it = Ok it' /\
    Path it' = String.concat "/" (map replace (split base slash)) /\ Url it' = Url it.
Proof.
  intros Hb. unfold substitute. rewrite Hb, join_segments_drop by apply split_nonnil.
  destruct (skipBody fl), (b64 fl); (eexists; split; [reflexivity | done]).
Qed.

(** (C19) The request is replaced as one block: untouched under
    [-pathonly]; otherwise its decoded [Body] under [-b64] and its [Raw]
    text without it, the other field being kept. *)
Theorem substitute_request (fl : flags) (replace : string -> string) (it it' : item) :
  substitute fl replace it = Ok it' ->
  Request it' =
    if skipBody fl then Request it
    else if b64 fl then mk_request (Raw (Request it)) (replace (Body (Request it)))
    else mk_request (replace (Raw (Request it))) (Body (Request it)).
Proof.
  destruct (escaped_path (Path it)) as [base|] eqn:Hb.
  - rewrite (substitute_ok _ _ _ base Hb). intros [= <-].
    by destruct (skipBody fl), (b64 fl).
  - unfold substitute. by rewrite Hb.
Qed.

(** (C20) Round trip of the path: with the identity replacer the new path
    is exactly the escaped path; one ["/"] is dropped from [after] and the
    path keeps its own leading ["/"] ([/a/b/c] stays [/a/b/c]). *)
Theorem substitute_id_path (fl : flags) (it : item) base :
  escaped_path (Path it) = Some base ->
  exists it', substitute fl (fun s => s) it = Ok it' /\ Path it' = base.
Proof.
  intros Hb. rewrite (substitute_ok _ _ _ base Hb). eexists; split; [done|].
  rewrite (map_ext (fun s => s) id), map_id, split_concat by done.
  by destruct (skipBody fl), (b64 fl).
Qed.

End Properties.

#[export] Hint Resolve substitute_no_panic substitute_avoids : corr.

Section Query.
Context `{UrlParserOk}.

(** (C21) The query string is lost: for a plain path followed by a query,
    the rewritten item's path is built from the path alone, under every
    parser obeying [UrlParserOk], so the correlated request is replayed
    without its parameters. *)
Theorem substitute_drops_query (fl : flags) (replace : string -> string) (it : item) p q :
  plain_path p = true -> query_bytes q = true -> Path it = p +:+ "?" +:+ q ->
  exists it', substitute fl replace it = Ok it' /\
    Path it' = String.concat "/" (map replace (split p slash)).
Proof.
  intros Hp Hq Heq. rewrite (substitute_ok _ _ _ p); [|rewrite Heq; by apply escaped_query].
  eexists; split; [done|]. by destruct (skipBody fl), (b64 fl).
Qed.

End Query.

(** ** Witnesses *)

Lemma substitute_path_witness :
  escaped_path (Path sample_item) = Some "/a/b/c" /\
  exists it', substitute default_flags (fun s => s +:+ "!") sample_item = Ok it' /\
    Path it' = String.concat "/" (map (fun s => s +:+ "!") (split "/a/b/c" slash)) /\
    Url it' = Url sample_item.
Proof.
  assert (escaped_path (Path sample_item) = Some "/a/b/c") as H by reflexivity.
  split; [exact H | exact (substitute_path _ _ _ _ H)].
Defined.

Lemma substitute_request_witness :
  substitute default_flags (fun s => s +:+ "!") sample_item =
    Ok (mk_item (Url sample_item) "!/a!/b!/c!" (mk_request "GET /a/b/c HTTP/1.1!" "")) /\
  Request (mk_item (Url sample_item) "!/a!/b!/c!" (mk_request "GET /a/b/c HTTP/1.1!" "")) =
    mk_request ((fun s => s +:+ "!") (Raw (Request sample_item))) (Body (Request sample_item)).
Proof.
  assert (substitute default_flags (fun s => s +:+ "!") sample_item =
    Ok (mk_item (Url sample_item) "!/a!/b!/c!" (mk_request "GET /a/b/c HTTP/1.1!" ""))) as H
    by (vm_compute; reflexivity).
  split; [exact H | exact (substitute_request _ _ _ _ H)].
Defined.

Lemma substitute_id_path_witness :
  escaped_path (Path sample_item) = Some "/a/b/c" /\
  exists it', substitute default_flags (fun s => s) sample_item = Ok it' /\ Path it' = "/a/b/c".
Proof.
  assert (escaped_path (Path sample_item) = Some "/a/b/c") as H by reflexivity.
  split; [exact H | exact (substitute_id_path _ _ _ H)].
Defined.

Lemma substitute_drops_query_witness :
  plain_path "/orders/42" = true /\ query_bytes "expand=items" = true /\
  Path (set_path "/orders/42?expand=items" sample_item) = "/orders/42" +:+ "?" +:+ "expand=items" /\
  exists it', substitute default_flags (fun s => s) (set_path "/orders/42?expand=items" sample_item) = Ok it' /\
    Path it' = String.concat "/" (map (fun s => s) (split "/orders/42" slash)).
Proof.
  assert (plain_path "/orders/42" = true) as H1 by reflexivity.
  assert (query_bytes "expand=items" = true) as H2 by reflexivity.
  assert (Path (set_path "/orders/42?expand=items" sample_item) =
          "/orders/42" +:+ "?" +:+ "expand=items") as H3 by reflexivity.
  split; [exact H1 | split; [exact H2 | split; [exact H3 |]]].
  exact (substitute_drops_query _ _ _ _ _ H1 H2 H3).
Defined.
