(* ===== verification/Loaders.v ===== *)
(** * Loading the inputs: [os.Open] followed by a parser

    [main] opens and parses three kinds of input (lines 63-76 for the
    OpenAPI files, lines 90-98 for the Burp history) and [ingestDb]
    (lines 397-409) does the same for the identifier databases.  In each
    case a failure of [os.Open] and a failure of the parser are two
    different calls of [fatal].

    The file system and the parsers are libraries the code only calls.
    They are the fields of the record [world]: [open_file] is [os.Open],
    giving the contents the parser will read or [None] for an error;
    [parse_api] is [openapi.Parse], [parse_burp] is [burpxml.Parse] (with
    the [-b64] flag), and [load_cfg] is [cfg.Load] followed by
    [BuildMap] and [FlatMap].  The control flow between them, with its
    [fatal] exits, is modelled here.  The last field, [encode], is the
    result of [enc.Encode(out)] (line 221) on [burpxml.Items] holding the
    given items: the encoder writes into the [bufio.Writer] over
    [os.Stdout] (lines 79-80), whose [Write] fails when a full buffer
    cannot be flushed. *)

From S2P Require Import Prelude Substitute.

(** ** Data *)

(** An [openapi.API]: its paths, in the order [range api.Paths] visits
    them. *)
Record API := mk_api { Paths : list string }.

(** A [burpxml] history. *)
Record history := mk_history { Items : list item }.

(** The libraries the loading code calls. *)
Record world := mk_world {
  open_file : string -> option string;
  parse_api : string -> option API;
  parse_burp : string -> bool -> option history;
  load_cfg : string -> option (gmap string string);
  encode : list item -> bool
}.

(** ** Loaders *)

(** Lines 64-73: one OpenAPI file. *)
Definition load_api (w : world) (name : string) : res API :=
  match open_file w name with
  | None => Fatal ErrApiOpen
  | Some apiFile =>
      match parse_api w apiFile with
      | None => Fatal ErrApiParse
      | Some api => Ok api
      end
  end.

(** Lines 63-76: the APIs in argument order; the first failure is fatal. *)
Fixpoint load_apis (w : world) (args : list string) : res (list API) :=
  match args with
  | [] => Ok []
  | name :: rest => a ← load_api w name; apis ← load_apis w rest; Ok (a :: apis)
  end.

(** Lines 90-98: the Burp history. *)
Definition load_burp (w : world) (burpName : string) (b64 : bool) : res history :=
  match open_file w burpName with
  | None => Fatal ErrBurpOpen
  | Some burpFile =>
      match parse_burp w burpFile b64 with
      | None => Fatal ErrBurpParse
      | Some h => Ok h
      end
  end.

(** Lines 397-409. *)
Definition ingestDb (w : world) (name : string) : res (gmap string string) :=
  match open_file w name with
  | None => Fatal ErrDbOpen
  | Some file =>
      match load_cfg w file with
      | None => Fatal ErrDbRead
      | Some db => Ok db
      end
  end.

(** ** Lemmas *)

Lemma load_api_no_panic (w : world) (name : string) : no_panic (load_api w name) = true.
Proof. unfold load_api. by repeat case_match. Qed.

Lemma load_burp_no_panic (w : world) (name : string) (b : bool) :
  no_panic (load_burp w name b) = true.
Proof. unfold load_burp. by repeat case_match. Qed.

Lemma ingestDb_no_panic (w : world) (name : string) : no_panic (ingestDb w name) = true.
Proof. unfold ingestDb. by repeat case_match. Qed.

#[export] Hint Resolve load_api_no_panic load_burp_no_panic ingestDb_no_panic : corr.

Lemma load_apis_no_panic (w : world) (args : list string) : no_panic (load_apis w args) = true.
Proof. induction args as [|a args IH]; cbn; eauto with corr. Qed.

#[export] Hint Resolve load_apis_no_panic : corr.

(** The loaders call [fatal] only at their own sites, never at the
    sites of the emit and replay phases. *)
Lemma load_api_avoids (w : world) (name : string) : avoids late_exit (load_api w name) = true.
Proof. unfold load_api. by repeat case_match. Qed.

Lemma load_burp_avoids (w : world) (name : string) (b : bool) :
  avoids late_exit (load_burp w name b) = true.
Proof. unfold load_burp. by repeat case_match. Qed.

Lemma ingestDb_avoids (w : world) (name : string) : avoids late_exit (ingestDb w name) = true.
Proof. unfold ingestDb. by repeat case_match. Qed.

#[export] Hint Resolve load_api_avoids load_burp_avoids ingestDb_avoids : corr.

Lemma load_apis_avoids (w : world) (args : list string) :
  avoids late_exit (load_apis w args) = true.
Proof. induction args as [|a args IH]; cbn; eauto with corr. Qed.

#[export] Hint Resolve load_apis_avoids : corr.
