(* ===== verification/Driver.v ===== *)
(** * CorrelationDriver: function [main] of [src/correlator.go]

    [main] (lines 44-236) checks its arguments, loads every OpenAPI file
    named on the command line, the Burp history and the two identifier
    databases, then runs three phases:
    - match (lines 114-171): every Burp item, in capture order, is
      normalised with [substitute(left2right, from, item)] and its path is
      tested against the paths of every API, the first matching path of an
      API winning; the hits [Pair{apiIndex, pathIndex}] are appended to
      [matches[burpIndex]]; the number of API paths is counted on the first
      item only;
    - substitute (lines 173-210): for every key of [matches], in Go's map
      iteration order, the original item is rewritten through
      [compose(from, to)] (unless [-nosub]) and its credentials are
      replaced with [subLine] or stripped with [stripLines] (under
      [-omitauth]), in [Body] under [-b64] and in [Raw] otherwise;
    - emit (lines 212-225, [emit]): under [-json] the rewritten items are
      copied into [burpxml.Items] and encoded, an encoder error being
      fatal;
    - replay (lines 227-233, [replay]): [-replay] ends in
      [fatal("replay not yet implemented")].
    [correlate] is the run up to the substitute phase, [main_phases] adds
    the emit phase and [main] the replay phase.

    The inputs are read by the loaders of [Loaders] over the library
    record [world].  The order in which [range matches] visits the keys is
    the class [KeyIter].

    Theorems: the first matching path wins within an API and every
    matching API gives one hit; the match phase records exactly the items
    with hits, keeps [matches] well formed at every iteration
    ([matches_ok]), and every hit is a literal occurrence of the API path
    in the normalised Burp path; a run emits exactly the correlated items
    of the contract [correlated]; the key order only permutes the output;
    without [-omitauth] every credential line of a rewritten request
    carries the new value and no run panics; the argument checks reject
    [-omitauth -replay]; the encoder's exit and the replay exit happen
    exactly after the earlier phases succeed, under [-json] and
    [-replay]; and normalisation leaves a path without names of [from]
    as captured, so on the spec's end-to-end scenario nothing is
    correlated. *)

From S2P Require Import Prelude GoStrings Flags Matcher Tables Substitute Headers Loaders.

(** ** Data *)

(** Lines 21-25. *)
Record Pair := mk_pair { api : nat; path : nat }.

(** Go's iteration order of [range matches] (line 180). *)
Class KeyIter := key_iter : gmap nat (list Pair) -> list nat.
Class KeyIterOk `{KeyIter} :=
  key_iter_perm : forall m, key_iter m ≡ₚ (map_to_list m).*1.

#[export] Instance key_iter_sorted : KeyIter := fun m => (map_to_list m).*1.
#[export] Instance key_iter_sorted_ok : @KeyIterOk key_iter_sorted.
Proof. intros m. done. Qed.

(** ** Argument checks (lines 48-56) *)

Definition check_args (fl : flags) (args : list string) : res unit :=
  if Nat.ltb (length args) 1 then Fatal ErrNoApiArg
  else if ((bool_decide (authHeader fl = "") && bool_decide (cookieHeader fl = ""))
           || omitAuth fl) && doReplay fl
  then Fatal ErrReplayAuth
  else Ok tt.

(** ** Match phase *)

(** The closure of lines 129-152: the index of the first path of length
    at least 2 that [match]es, counted from [pathIndex]. *)
Fixpoint find_path (fl : flags) (burpPath : string) (paths : list string) (pathIndex : nat)
  : option nat :=
  match paths with
  | [] => None
  | apiPath :: rest =>
      if Nat.ltb (len apiPath) 2 then find_path fl burpPath rest (S pathIndex)
      else if match_ fl burpPath apiPath then Some pathIndex
      else find_path fl burpPath rest (S pathIndex)
  end.

(** Lines 125-160: one [Pair] per API that has a matching path. *)
Fixpoint match_apis (fl : flags) (burpPath : string) (apis : list API) (apiIndex : nat)
  : list Pair :=
  match apis with
  | [] => []
  | a :: rest =>
      match find_path fl burpPath (Paths a) 0 with
      | Some pathIndex => mk_pair apiIndex pathIndex :: match_apis fl burpPath rest (S apiIndex)
      | None => match_apis fl burpPath rest (S apiIndex)
      end
  end.

(** Line 159: [matches[burpIndex] = append(matches[burpIndex], p)]. *)
Definition add_match (burpIndex : nat) (ms : gmap nat (list Pair)) (p : Pair) :=
  <[burpIndex := default [] (ms !! burpIndex) ++ [p]]> ms.

Record match_state := mk_match_state {
  pathCount : nat;
  matches : gmap nat (list Pair)
}.

(** A recorded hit names an API of the command line and one of its
    paths, of length at least 2. *)
Definition pair_ok (apis : list API) (pr : Pair) : Prop :=
  exists A x, apis !! api pr = Some A /\ Paths A !! path pr = Some x /\ 2 <= len x.

(** Well-formed [matches] after [n] items: every key is the index of an
    item already visited, and every entry is a non-empty list of hits. *)
Definition matches_ok (n : nat) (apis : list API) (ms : gmap nat (list Pair)) : Prop :=
  map_Forall (fun b ps => b < n /\ ps <> [] /\ Forall (pair_ok apis) ps) ms.

(** ** Emit and replay phases *)

(** Lines 216-219: [out.Items = append(out.Items, item)] for every item
    of [future]. *)
Definition copy_items (future : list item) : list item :=
  fold_left (fun out it => out ++ [it]) future [].

(** Lines 214-225: under [-json], [burpxml.Items] holding the correlated
    items goes to [enc.Encode], whose error is fatal. *)
Definition emit (w : world) (fl : flags) (future : list item) : res (option (list item)) :=
  if emitJSON fl then
    let out := copy_items future in
    if encode w out then Ok (Some out) else Fatal ErrJsonEncode
  else Ok None.

(** Lines 229-233: without [-replay] [main] returns; otherwise it calls
    [fatal("replay not yet implemented")]. *)
Definition replay {A} (fl : flags) (o : A) : res A :=
  if negb (doReplay fl) then Ok o else Fatal ErrReplayUnimplemented.

Section Phases.
Context `{MapIter} `{UrlParser} `{KeyIter}.

(** Lines 120-161. *)
Fixpoint match_phase (fl : flags) (from : gmap string string) (apis : list API)
    (items : list item) (burpIndex : nat) (st : match_state) : res match_state :=
  match items with
  | [] => Ok st
  | it :: rest =>
      it' ← substitute fl (left2right from) it;
      let pc := if Nat.ltb burpIndex 1
                then pathCount st + sum_list (map (fun a => length (Paths a)) apis)
                else pathCount st in
      let ms := fold_left (add_match burpIndex) (match_apis fl (Path it') apis 0) (matches st) in
      match_phase fl from apis rest (S burpIndex) (mk_match_state pc ms)
  end.

(** Lines 181-207: one matched item, rewritten. *)
Definition convert (fl : flags) (tab : gmap string string) (it : item) : res item :=
  it ← (if negb (noSub fl) then substitute fl (left2right tab) it else Ok it);
  if negb (omitAuth fl) then
    if b64 fl then
      Ok (set_body (subLine (subLine (Body (Request it)) "Authorization:" (authHeader fl))
                            "Cookie:" (cookieHeader fl)) it)
    else
      Ok (set_raw (subLine (subLine (Raw (Request it)) "Authorization:" (authHeader fl))
                           "Cookie:" (cookieHeader fl)) it)
  else
    if b64 fl then
      body ← stripLines (Body (Request it)) ["Authorization:"; "Cookie:"];
      Ok (set_body body it)
    else
      raw ← stripLines (Raw (Request it)) ["Authorization:"; "Cookie:"];
      Ok (set_raw raw it).

(** Lines 180-210: [future = append(future, item)] for every key. *)
Fixpoint subst_phase (fl : flags) (tab : gmap string string) (items : list item)
    (keys : list nat) : res (list item) :=
  match keys with
  | [] => Ok []
  | burp :: rest =>
      match items !! burp with
      | None => Panic PanicSliceBounds
      | Some it => it' ← convert fl tab it; future ← subst_phase fl tab items rest; Ok (it' :: future)
      end
  end.

Record outcome := mk_outcome {
  matchCount : nat;         (* line 170 *)
  itemCount : nat;          (* line 171 *)
  pathTotal : nat;          (* line 171 *)
  future : list item;       (* line 176 *)
  json : option (list item) (* lines 214-225: what is encoded *)
}.

(** Lines 45-210: the argument checks, the loaders, the match phase and
    the substitute phase; their result is the match state, the history
    and [future]. *)
Definition correlate (w : world) (fl : flags) (args : list string)
    : res (match_state * history * list item) :=
  _ ← check_args fl args;
  apis ← load_apis w args;
  _ ← (if bool_decide (burpName fl = "") then Fatal ErrNoBurpName else Ok tt);
  hist ← load_burp w (burpName fl) (b64 fl);
  _ ← (if Nat.ltb (len (fromName fl)) 1 then Fatal ErrNoFromName else Ok tt);
  _ ← (if Nat.ltb (len (toName fl)) 1 then Fatal ErrNoToName else Ok tt);
  from ← ingestDb w (fromName fl);
  to ← ingestDb w (toName fl);
  st ← match_phase fl from apis (Items hist) 0 (mk_match_state 0 ∅);
  let tab := compose from to in
  fut ← subst_phase fl tab (Items hist) (key_iter (matches st));
  Ok (st, hist, fut).

(** Lines 44-225: up to and including the emit phase. *)
Definition main_phases (w : world) (fl : flags) (args : list string) : res outcome :=
  c ← correlate w fl args;
  let '(st, hist, fut) := c in
  js ← emit w fl fut;
  Ok (mk_outcome (size (matches st)) (length (Items hist)) (pathCount st) fut js).

(** Lines 44-236: the replay phase ends the run. *)
Definition main (w : world) (fl : flags) (args : list string) : res outcome :=
  o ← main_phases w fl args;
  replay fl o.

End Phases.

(** ** The spec's end-to-end scenario (section 8) *)

Definition scenario_item : item :=
  mk_item "https://example.test/svc/v2/widgets/abc-123/info" "/svc/v2/widgets/abc-123/info"
          (mk_request "GET /svc/v2/widgets/abc-123/info HTTP/1.1" "").

(** Every file opens and its contents are its name. *)
Definition scenario_world : world := {|
  open_file := fun name => Some name;
  parse_api := fun _ => Some (mk_api ["/widgets/{widgetId}/info"]);
  parse_burp := fun _ _ => Some (mk_history [scenario_item]);
  load_cfg := fun name =>
    if bool_decide (name = "from.db") then Some {["widgetId" := "abc-123"]}
    else Some {["widgetId" := "zzz-999"]};
  encode := fun _ => true
|}.

Definition scenario_flags : flags := {|
  fuzzy := 50; fromName := "from.db"; toName := "to.db"; burpName := "burp.xml";
  b64 := false; chatty := false; noSub := false; skipBody := true; doReplay := false;
  authHeader := ""; cookieHeader := ""; omitAuth := false; emitJSON := true
|}.

(** What the match phase records for one item: its pairs, when there are
    any (line 159 is never reached otherwise). *)
Definition expected_at `{MapIter} `{UrlParser} (fl : flags) from apis (it : item)
  : option (list Pair) :=
  match substitute fl (left2right from) it with
  | Ok it' => match match_apis fl (Path it') apis 0 with [] => None | ps => Some ps end
  | _ => None
  end.

(** The contract of the whole run (spec section 6, [Correlate]): the
    correlated items are the items of the history that have a hit,
    normalised with [from], each rewritten through [compose from to] by
    [convert], each exactly once, in some order. *)
Definition correlated `{MapIter} `{UrlParser} (fl : flags) (from to : gmap string string)
    (apis : list API) (items : list item) (out : list item) : Prop :=
  exists keys, NoDup keys /\
    (forall b, b ∈ keys <-> exists it ps, items !! b = Some it /\ expected_at fl from apis it = Some ps) /\
    Forall2 (fun b it' => exists it, items !! b = Some it /\ convert fl (compose from to) it = Ok it')
            keys out.

Definition demo_api : API := mk_api ["/"; "/api/x"].
Definition demo_items : list item :=
  [mk_item "u0" "/gw/api/x" (mk_request "GET /gw/api/x HTTP/1.1" "");
   mk_item "u1" "/other" (mk_request "" "");
   mk_item "u2" "/v1/api/x" (mk_request "" "")].

Definition omit_replay_flags : flags :=
  mk_flags 100 "f" "t" "b" false false false false true "Bearer z" "" true false.
Definition nosub_flags : flags :=
  mk_flags 100 "f" "t" "b" false false true false false "Bearer z" "s=1" false false.
Definition replay_flags : flags :=
  mk_flags 50 "from.db" "to.db" "burp.xml" false false false true true "Bearer z" "" false true.

Definition demo_world : world := {|
  open_file := fun name => Some name;
  parse_api := fun _ => Some demo_api;
  parse_burp := fun _ _ => Some (mk_history demo_items);
  load_cfg := fun _ => Some ∅;
  encode := fun _ => true
|}.

(** The scenario's inputs with an output the encoder cannot write to. *)
Definition closed_stdout_world : world := {|
  open_file := open_file scenario_world;
  parse_api := parse_api scenario_world;
  parse_burp := parse_burp scenario_world;
  load_cfg := load_cfg scenario_world;
  encode := fun _ => false
|}.

(** A raw request carrying old credentials. *)
Definition cred_item : item :=
  mk_item "u" "/a" (mk_request ("GET /a HTTP/1.1" +:+ newline +:+ "Authorization: Bearer old" +:+
                                newline +:+ "Cookie: s=0") "").

Definition key_iter_rev : KeyIter := fun m => reverse (map_to_list m).*1.
Lemma key_iter_rev_ok : @KeyIterOk key_iter_rev.
Proof. intros m. apply reverse_Permutation. Qed.

(** ** Lemmas *)

Lemma find_path_shift (fl : flags) (p : string) (paths : list string) (n : nat) :
  find_path fl p paths (S n) = S <$> find_path fl p paths n.
Proof.
  revert n. induction paths as [|x xs IH]; intros n; [done|]. cbn [find_path].
  destruct (Nat.ltb (len x) 2); [apply IH|]. destruct (match_ fl p x); [done | apply IH].
Qed.

Lemma match_apis_shift (fl : flags) (p : string) (apis : list API) (n : nat) :
  match_apis fl p apis (S n) = (fun pr => mk_pair (S (api pr)) (path pr)) <$> match_apis fl p apis n.
Proof.
  revert n. induction apis as [|a rest IH]; intros n; [done|]. cbn [match_apis].
  destruct (find_path fl p (Paths a) 0); by rewrite IH.
Qed.

Lemma subst_phase_perm `{MapIter} `{UrlParser} (fl : flags) (tab : gmap string string)
    (items : list item) (k1 k2 : list nat) r1 :
  k1 ≡ₚ k2 -> subst_phase fl tab items k1 = Ok r1 ->
  exists r2, subst_phase fl tab items k2 = Ok r2 /\ r1 ≡ₚ r2.
Proof.
  intros Hp. revert r1. induction Hp as [|x l1 l2 _ IH|x y l|l1 l2 l3 _ IH1 _ IH2]; intros r1 Hr.
  - exists r1. done.
  - cbn in *. destruct (items !! x); [|done]. res_inv.
    destruct (IH _ eq_refl) as (r2 & -> & Hr2). cbn. eexists; split; [done|]. by rewrite Hr2.
  - cbn in *. destruct (items !! y) as [iy|], (items !! x) as [ix|]; try done; res_inv.
    eexists; split; [reflexivity | apply perm_swap].
  - destruct (IH1 _ Hr) as (r2 & H2 & P12). destruct (IH2 _ H2) as (r3 & H3 & P23).
    exists r3. split; [done|]. by rewrite P12.
Qed.

(** ** Properties *)

(** (C10) First match wins within an API (spec section 5): [find_path]
    returns the position [i] of a path of length at least 2 that matches,
    such that every earlier path is too short or does not match. *)
Theorem find_path_first (fl : flags) (p : string) (paths : list string) (i : nat) :
  find_path fl p paths 0 = Some i <->
  exists x, paths !! i = Some x /\ 2 <= len x /\ match_ fl p x = true /\
    forall j y, j < i -> paths !! j = Some y -> len y < 2 \/ match_ fl p y = false.
Proof.
  revert i. induction paths as [|x xs IH]; intros i; cbn [find_path].
  { split; [done | by intros (? & ? & _)]. }
  rewrite find_path_shift. destruct (Nat.ltb (len x) 2) eqn:Hx; [apply Nat.ltb_lt in Hx | apply Nat.ltb_ge in Hx].
  - split.
    + intros (k & Hk & ->)%fmap_Some. apply IH in Hk as (y & Hy & H2 & Hm & Hbefore).
      exists y. split_and!; [done | lia | done |]. intros [|j] z Hj Hz; cbn in Hz.
      * simplify_eq. by left.
      * apply (Hbefore j); [lia | done].
    + intros (y & Hy & H2 & Hm & Hbefore). destruct i as [|i]; cbn in Hy; [simplify_eq; lia|].
      apply fmap_Some. exists i. split; [|done]. apply IH.
      exists y. split_and!; try done. intros j z Hj Hz. apply (Hbefore (S j)); [lia | done].
  - destruct (match_ fl p x) eqn:Hm.
    + split.
      * intros [= <-]. exists x. split_and!; try done. intros j z Hj. lia.
      * intros (y & Hy & H2 & Hmy & Hbefore). destruct i as [|i]; [done|].
        exfalso. destruct (Hbefore 0 x) as [?|?]; [lia | done | lia | congruence].
    + split.
      * intros (k & Hk & ->)%fmap_Some. apply IH in Hk as (y & Hy & H2 & Hmy & Hbefore).
        exists y. split_and!; try done. intros [|j] z Hj Hz; cbn in Hz.
        -- simplify_eq. by right.
        -- apply (Hbefore j); [lia | done].
      * intros (y & Hy & H2 & Hmy & Hbefore). destruct i as [|i]; cbn in Hy; [congruence|].
        apply fmap_Some. exists i. split; [|done]. apply IH.
        exists y. split_and!; try done. intros j z Hj Hz. apply (Hbefore (S j)); [lia | done].
Qed.

(** (C22) Matches across specifications are kept (spec section 9): the
    item's pairs are exactly one [(apiIndex, pathIndex)] per API in which
    [find_path] finds a path. *)
Theorem match_apis_spec (fl : flags) (p : string) (apis : list API) (a i : nat) :
  mk_pair a i ∈ match_apis fl p apis 0 <->
  exists A, apis !! a = Some A /\ find_path fl p (Paths A) 0 = Some i.
Proof.
  revert a. induction apis as [|A0 rest IH]; intros a; cbn [match_apis].
  { split; [by intros ?%elem_of_nil | by intros (? & ? & _)]. }
  assert (forall l : list Pair, mk_pair a i ∈ (fun pr => mk_pair (S (api pr)) (path pr)) <$> l <->
                    exists a', a = S a' /\ mk_pair a' i ∈ l) as Hmap.
  { intros l. rewrite list_elem_of_fmap. split.
    - intros ([a' i'] & [= -> ->] & Hin). eauto.
    - intros (a' & -> & Hin). exists (mk_pair a' i). done. }
  destruct (find_path fl p (Paths A0) 0) as [k|] eqn:Hk.
  - rewrite elem_of_cons, match_apis_shift, Hmap. split.
    + intros [[= -> ->] | (a' & -> & Hin)]; [by exists A0|]. by apply IH.
    + intros (A & HA & Hf). destruct a as [|a']; cbn in HA.
      * simplify_eq. left. congruence.
      * right. exists a'. split; [done|]. apply IH. eauto.
  - rewrite match_apis_shift, Hmap. split.
    + intros (a' & -> & Hin). by apply IH.
    + intros (A & HA & Hf). destruct a as [|a']; cbn in HA; [simplify_eq; congruence|].
      exists a'. split; [done|]. apply IH. eauto.
Qed.

(** (C25) [-omitauth] together with [-replay] is always rejected, although
    the message of line 55 offers "explicitly omit auth information" as a
    way to replay. *)
Theorem omitauth_replay_rejected (fl : flags) (args : list string) :
  omitAuth fl = true -> doReplay fl = true -> args <> [] ->
  check_args fl args = Fatal ErrReplayAuth.
Proof.
  intros Ho Hr Ha. unfold check_args. destruct args; [done|]. cbn.
  by rewrite Ho, Hr, orb_true_r.
Qed.

(** (C15) The driver's credential rewrite appends two line terminators to
    a raw request that has neither header ([subLine] is called twice,
    each adding one), e.g. after the body of a POST request. *)
Theorem convert_appends_two_newlines `{MapIter} `{UrlParser} (fl : flags) tab (it : item) :
  noSub fl = true -> omitAuth fl = false -> b64 fl = false ->
  (forall line, In line (split (Raw (Request it)) nl) ->
     has_prefix line "Authorization:" = false /\ has_prefix line "Cookie:" = false) ->
  convert fl tab it = Ok (set_raw (Raw (Request it) +:+ newline +:+ newline) it).
Proof.
  intros Hn Ho Hb Hl. unfold convert. rewrite Hn, Ho, Hb. cbn.
  unfold subLine at 2. rewrite sub_one_lines, remake_split by (intros line Hin; apply Hl, Hin).
  unfold subLine. rewrite sub_one_lines, remake_split; [by rewrite <- str_app_assoc|].
  intros line. rewrite split_snoc_newline, in_app_iff. intros [Hin | [<- | []]]; [by apply Hl | done].
Qed.

Lemma fold_add_match (b : nat) (ps : list Pair) (ms : gmap nat (list Pair)) :
  fold_left (add_match b) ps ms =
  match ps with [] => ms | _ => <[b := default [] (ms !! b) ++ ps]> ms end.
Proof.
  revert ms. induction ps as [|p ps IH]; intros ms; [done|]. cbn [fold_left].
  rewrite IH. unfold add_match. destruct ps as [|q qs]; [done|].
  rewrite lookup_insert_eq, insert_insert_eq. cbn. by rewrite <- app_assoc.
Qed.

Lemma fold_add_match_fresh (n b : nat) (ps : list Pair) (ms : gmap nat (list Pair)) :
  ms !! n = None ->
  fold_left (add_match n) ps ms !! b =
  if decide (b = n) then match ps with [] => None | _ => Some ps end else ms !! b.
Proof.
  intros Hn. rewrite fold_add_match. destruct ps as [|p ps].
  - case_decide; [by subst | done].
  - rewrite Hn. case_decide; [subst; by rewrite lookup_insert_eq|].
    by rewrite lookup_insert_ne by congruence.
Qed.

Lemma match_phase_lookup `{MapIter} `{UrlParser} (fl : flags) from apis
    (items : list item) (n : nat) (st st' : match_state) :
  match_phase fl from apis items n st = Ok st' ->
  (forall b, n <= b -> matches st !! b = None) ->
  forall b, matches st' !! b =
    if decide (b < n) then matches st !! b
    else items !! (b - n) ≫= expected_at fl from apis.
Proof.
  revert n st. induction items as [|it items IH]; intros n st Hrun Hfresh b; cbn in Hrun.
  - injection Hrun as <-. case_decide; [done|]. rewrite Hfresh by lia. by destruct (b - n).
  - res_inv. rename a into it'.
    assert (matches st !! n = None) as Hn by (apply Hfresh; lia).
    rewrite (IH _ _ Hrun); cbn [matches].
    2: { intros b' Hb'. rewrite fold_add_match_fresh by done.
         case_decide; [lia | apply Hfresh; lia]. }
    rewrite fold_add_match_fresh by done.
    destruct (decide (b < n)); [rewrite !decide_True by lia; by rewrite decide_False by lia|].
    destruct (decide (b = n)) as [->|].
    + rewrite decide_True by lia. rewrite Nat.sub_diag.
      change ((it :: items) !! 0 ≫= expected_at fl from apis) with (expected_at fl from apis it).
      unfold expected_at. rewrite E. by destruct (match_apis fl (Path it') apis 0).
    + rewrite !decide_False by lia. replace (b - n) with (S (b - S n)) by lia. done.
Qed.

Lemma match_phase_pathCount `{MapIter} `{UrlParser} (fl : flags) from apis
    (items : list item) (n : nat) (st st' : match_state) :
  match_phase fl from apis items n st = Ok st' ->
  pathCount st' =
    if bool_decide (n = 0 /\ items <> []) then pathCount st + sum_list (map (fun a => length (Paths a)) apis)
    else pathCount st.
Proof.
  revert n st. induction items as [|it items IH]; intros n st Hrun; cbn in Hrun.
  - injection Hrun as <-. by rewrite bool_decide_false by naive_solver.
  - res_inv. rewrite (IH _ _ Hrun), bool_decide_false by lia. cbn.
    destruct n; cbn; [by rewrite bool_decide_true | by rewrite bool_decide_false by lia].
Qed.

(** The path [find_path] returns is one of the API's paths, of length at
    least 2. *)
Lemma find_path_range (fl : flags) (p : string) (paths : list string) (n i : nat) :
  find_path fl p paths n = Some i ->
  n <= i /\ exists x, paths !! (i - n) = Some x /\ 2 <= len x /\ match_ fl p x = true.
Proof.
  revert n i. induction paths as [|x xs IH]; intros n i; cbn [find_path]; [done|].
  assert (forall k, find_path fl p xs (S n) = Some k ->
            n <= k /\ exists y, (x :: xs) !! (k - n) = Some y /\ 2 <= len y /\ match_ fl p y = true)
    as Hrest.
  { intros k (Hk & y & Hy & Hl)%IH. split; [lia|]. exists y.
    by replace (k - n) with (S (k - S n)) by lia. }
  destruct (Nat.ltb (len x) 2) eqn:Hx; [apply Hrest|].
  destruct (match_ fl p x) eqn:Hm; [|apply Hrest].
  intros [= <-]. apply Nat.ltb_ge in Hx. split; [lia|]. exists x. by rewrite Nat.sub_diag.
Qed.

(** One iteration of the match loop keeps [matches] well formed. *)
Lemma matches_ok_step (n : nat) (apis : list API) (ms : gmap nat (list Pair)) (ps : list Pair) :
  matches_ok n apis ms -> Forall (pair_ok apis) ps ->
  matches_ok (S n) apis (fold_left (add_match n) ps ms).
Proof.
  intros Hms Hps. rewrite fold_add_match.
  assert (matches_ok (S n) apis ms) as Hms'.
  { eapply map_Forall_impl; [exact Hms|]. intros b qs (? & ? & ?). split_and!; [lia | done | done]. }
  destruct ps as [|q qs]; [done|].
  apply map_Forall_insert_2; [|done]. split_and!; [lia | by intros [_ ?]%app_eq_nil |].
  apply Forall_app; split; [|done].
  destruct (ms !! n) as [l|] eqn:E; cbn; [|constructor]. by destruct (Hms n l E) as (_ & _ & ?).
Qed.


Lemma match_phase_no_panic `{MapIter} `{UrlParser} (fl : flags) from apis items n st :
  no_panic (match_phase fl from apis items n st) = true.
Proof.
  revert n st. induction items as [|it items IH]; intros n st; cbn; eauto with corr.
Qed.

Lemma convert_no_panic `{MapIter} `{UrlParser} (fl : flags) tab (it : item) :
  omitAuth fl = false -> no_panic (convert fl tab it) = true.
Proof.
  intros Ho. unfold convert. rewrite Ho. cbn. repeat case_match; eauto with corr.
Qed.

(** Without [-omitauth], the substitution phase only panics on a key that
    is not the index of an item. *)
Lemma subst_phase_no_panic `{MapIter} `{UrlParser} (fl : flags) tab (items : list item)
    (keys : list nat) :
  omitAuth fl = false -> Forall (fun k => k < length items) keys ->
  no_panic (subst_phase fl tab items keys) = true.
Proof.
  intros Ho. induction 1 as [|k keys Hk _ IH]; cbn; [done|].
  destruct (lookup_lt_is_Some_2 items k Hk) as [it ->].
  apply bind_no_panic; [by apply convert_no_panic | intros ? _].
  apply bind_no_panic; [exact IH | done].
Qed.

(** The copy loop of lines 216-219 keeps [future] as it is. *)
Lemma copy_items_id (future : list item) : copy_items future = future.
Proof.
  unfold copy_items.
  assert (forall acc, fold_left (fun out it => out ++ [it]) future acc = acc ++ future) as Hf.
  { induction future as [|it future IH]; intros acc; cbn; [by rewrite app_nil_r|].
    by rewrite IH, <- app_assoc. }
  apply Hf.
Qed.

(** The phases before the emit phase call [fatal] only at their own
    sites, never at lines 223 and 233. *)
Lemma match_phase_avoids `{MapIter} `{UrlParser} (fl : flags) from apis items n st :
  avoids late_exit (match_phase fl from apis items n st) = true.
Proof.
  revert n st. induction items as [|it items IH]; intros n st; cbn; eauto with corr.
Qed.

Lemma convert_avoids `{MapIter} `{UrlParser} (fl : flags) tab (it : item) :
  avoids late_exit (convert fl tab it) = true.
Proof. unfold convert. repeat case_match; eauto with corr. Qed.

Lemma subst_phase_avoids `{MapIter} `{UrlParser} (fl : flags) tab (items : list item)
    (keys : list nat) :
  avoids late_exit (subst_phase fl tab items keys) = true.
Proof.
  induction keys as [|k keys IH]; cbn; [done|].
  case_match; eauto using convert_avoids with corr.
Qed.

Lemma correlate_avoids `{MapIter} `{UrlParser} `{KeyIter} (w : world) (fl : flags)
    (args : list string) :
  avoids late_exit (correlate w fl args) = true.
Proof.
  unfold correlate.
  apply bind_avoids; [unfold check_args; by repeat case_match | intros ? _].
  apply bind_avoids; [auto with corr | intros apis _].
  apply bind_avoids; [by case_bool_decide | intros ? _].
  apply bind_avoids; [auto with corr | intros hist _].
  do 2 (apply bind_avoids; [by destruct (Nat.ltb _ _) | intros ? _]).
  do 2 (apply bind_avoids; [auto with corr | intros ? _]).
  apply bind_avoids; [apply match_phase_avoids | intros st _].
  apply bind_avoids; [apply subst_phase_avoids | done].
Qed.

(** The key order of [range matches] only permutes [future]. *)
Lemma correlate_key_order `{MapIter} `{UrlParser} (K1 K2 : KeyIter)
    `{!@KeyIterOk K1} `{!@KeyIterOk K2} (w : world) (fl : flags) (args : list string) st hist r :
  @correlate _ _ K1 w fl args = Ok (st, hist, r) ->
  exists r2, @correlate _ _ K2 w fl args = Ok (st, hist, r2) /\ r ≡ₚ r2.
Proof.
  unfold correlate. intros Hrun.
  repeat match type of Hrun with
  | (?m ≫= _) = _ => let E := fresh "E" in destruct m eqn:E; cbn in Hrun |- *; try discriminate
  end.
  match goal with
  | Hs : subst_phase ?f ?t ?i (@key_iter K1 ?m) = Ok ?r |- _ =>
      assert (@key_iter K1 m ≡ₚ @key_iter K2 m) as Hk
        by (rewrite (@key_iter_perm K1 _ m), (@key_iter_perm K2 _ m); done);
      destruct (subst_phase_perm f t i _ _ r Hk Hs) as (r2 & Hr2 & Hp)
  end.
  injection Hrun as <- <- <-. rewrite Hr2. eauto.
Qed.

(** ** Properties of the phases *)

(** (C9) The match phase records, for every Burp index [b], the pairs
    [match_apis] finds for the normalised item [b] when there are any, and
    nothing otherwise; items without a match never appear in [matches]. *)
Theorem match_phase_matches `{MapIter} `{UrlParser} (fl : flags) from apis
    (items : list item) (st : match_state) :
  match_phase fl from apis items 0 (mk_match_state 0 ∅) = Ok st ->
  forall b, matches st !! b = items !! b ≫= expected_at fl from apis.
Proof.
  intros Hrun b. rewrite (match_phase_lookup _ _ _ _ _ _ _ Hrun); cycle 1.
  { intros b' _. apply lookup_empty. }
  rewrite decide_False by lia. by rewrite Nat.sub_0_r.
Qed.

(** (C23) The number of API paths reported is counted on the first item
    only: the total number of paths of all APIs (short ones included)
    when the history is not empty, and 0 for an empty history. *)
Theorem match_phase_path_total `{MapIter} `{UrlParser} (fl : flags) from apis
    (items : list item) (st : match_state) :
  match_phase fl from apis items 0 (mk_match_state 0 ∅) = Ok st ->
  pathCount st = if bool_decide (items = []) then 0
                 else sum_list (map (fun a => length (Paths a)) apis).
Proof.
  intros Hrun. rewrite (match_phase_pathCount _ _ _ _ _ _ _ Hrun). cbn.
  destruct items; [by rewrite !bool_decide_false, bool_decide_true by naive_solver|].
  by rewrite bool_decide_true, bool_decide_false by naive_solver.
Qed.

(** (C24) The order in which [range matches] visits the matched items only
    permutes the emitted items: for any two valid iteration orders, a run
    that succeeds under one succeeds under the other with the same counts
    and a permutation of the same correlated items, provided the encoder's
    success does not depend on the order of the items. *)
Theorem main_phases_key_order `{MapIter} `{UrlParser} (K1 K2 : KeyIter)
    `{!@KeyIterOk K1} `{!@KeyIterOk K2} (w : world) `{Henc : !Proper ((≡ₚ) ==> (=)) (encode w)}
    (fl : flags) (args : list string) o1 :
  @main_phases _ _ K1 w fl args = Ok o1 ->
  exists o2, @main_phases _ _ K2 w fl args = Ok o2 /\
    future o1 ≡ₚ future o2 /\ matchCount o1 = matchCount o2 /\
    itemCount o1 = itemCount o2 /\ pathTotal o1 = pathTotal o2.
Proof.
  unfold main_phases. intros Hrun.
  destruct (@correlate _ _ K1 w fl args) as [[[st hist] r]| |] eqn:Hc; cbn in Hrun; try discriminate.
  destruct (correlate_key_order K1 K2 w fl args st hist r Hc) as (r2 & -> & Hp). cbn.
  unfold emit in *. rewrite !copy_items_id in *. rewrite <- (Henc _ _ Hp).
  destruct (emitJSON fl), (encode w r); cbn in Hrun; try discriminate;
    injection Hrun as <-; eexists; (split; [reflexivity|]); cbn; by split_and!.
Qed.
(** (C16) Refinement of the contract [correlated]: a run that gets past
    the emission phase, with the inputs its loaders returned, emits
    exactly the correlated items of the history, and reports as the number
    of matches the number of items emitted. *)
Theorem main_phases_refines `{MapIter} `{UrlParser} `{KeyIter} `{!KeyIterOk} (w : world)
    (fl : flags) (args : list string) apis hist from to o :
  load_apis w args = Ok apis -> load_burp w (burpName fl) (b64 fl) = Ok hist ->
  ingestDb w (fromName fl) = Ok from -> ingestDb w (toName fl) = Ok to ->
  main_phases w fl args = Ok o ->
  correlated fl from to apis (Items hist) (future o) /\ matchCount o = length (future o) /\
  json o = (if emitJSON fl then Some (future o) else None).
Proof.
  intros Ha Hb Hf Ht Hrun. unfold main_phases, correlate in Hrun.
  rewrite Ha, Hb, Hf, Ht in Hrun. res_inv. cbn in *.
  match goal with Hm : match_phase _ _ _ _ _ _ = Ok ?s |- _ => rename Hm into Hst; rename s into st end.
  match goal with Hs : subst_phase _ _ _ _ = Ok ?r |- _ => rename Hs into Hsp; rename r into fut end.
  match goal with He : emit _ _ _ = Ok ?j |- _ => rename He into Hemit; rename j into js end.
  assert (js = if emitJSON fl then Some fut else None) as Hjs.
  { unfold emit in Hemit. rewrite copy_items_id in Hemit.
    destruct (emitJSON fl), (encode w fut); cbn in Hemit; congruence. }
  (* The substitution loop converts the item of every key, in key order. *)
  assert (forall keys out, subst_phase fl (compose from to) (Items hist) keys = Ok out ->
            Forall2 (fun b it' => exists it, Items hist !! b = Some it /\
                                   convert fl (compose from to) it = Ok it') keys out) as Hsub.
  { induction keys as [|k keys IH]; intros out Hs; cbn in Hs; [by injection Hs as <-|].
    destruct (Items hist !! k) as [it|] eqn:Hk; [|done]. res_inv. constructor; eauto. }
  pose proof (Hsub _ _ Hsp) as Hall. split_and!; [| |exact Hjs].
  - exists (key_iter (matches st)). split_and!; [|intros b|done].
    + rewrite (key_iter_perm (matches st)). apply NoDup_fst_map_to_list.
    + assert (forall b', matches st !! b' = Items hist !! b' ≫= expected_at fl from apis) as Hlk.
      { intros b'. rewrite (match_phase_lookup _ _ _ _ _ _ _ Hst (fun _ _ => lookup_empty _)).
        by rewrite decide_False, Nat.sub_0_r by lia. }
      rewrite (key_iter_perm (matches st)), list_elem_of_fmap. split.
      * intros ([b' ps] & -> & Hin%elem_of_map_to_list). rewrite Hlk in Hin. cbn.
        destruct (Items hist !! b') eqn:Hi; [|done]. eauto.
      * intros (it & ps & Hi & He). exists (b, ps). split; [done|].
        apply elem_of_map_to_list. by rewrite Hlk, Hi.
  - rewrite <- (Forall2_length _ _ _ Hall), (key_iter_perm (matches st)), length_fmap.
    by rewrite length_map_to_list.
Qed.

(** (C28) Invariant of the match loop: every iteration keeps [matches]
    well formed.  Each key is the index of an item already visited, each
    entry a non-empty list of hits, and each hit names an API of the
    command line and one of its paths of length at least 2. *)
Theorem match_phase_wf `{MapIter} `{UrlParser} (fl : flags) from apis (items : list item)
    (n : nat) (st st' : match_state) :
  matches_ok n apis (matches st) ->
  match_phase fl from apis items n st = Ok st' ->
  matches_ok (n + length items) apis (matches st').
Proof.
  (* Every hit of [match_apis], counted from [a], names an API and one of
     its paths. *)
  assert (forall p apis' a pr, pr ∈ match_apis fl p apis' a ->
            a <= api pr /\ exists A x, apis' !! (api pr - a) = Some A /\
                                       Paths A !! path pr = Some x /\ 2 <= len x) as Hrange.
  { intros p apis' a pr. revert a. induction apis' as [|A0 rest IHa]; intros a; cbn [match_apis].
    { by intros ?%elem_of_nil. }
    assert (pr ∈ match_apis fl p rest (S a) ->
            a <= api pr /\ exists A x, (A0 :: rest) !! (api pr - a) = Some A /\
                                       Paths A !! path pr = Some x /\ 2 <= len x) as Hrest.
    { intros (Ha & A & x & HA & Hx & Hl)%IHa. split; [lia|]. exists A, x.
      by replace (api pr - a) with (S (api pr - S a)) by lia. }
    destruct (find_path fl p (Paths A0) 0) as [k|] eqn:Hk; [|exact Hrest].
    rewrite elem_of_cons. intros [-> | Hin]; [|by apply Hrest].
    destruct (find_path_range _ _ _ _ _ Hk) as (_ & x & Hx & Hl & _). rewrite Nat.sub_0_r in Hx.
    cbn. split; [lia|]. exists A0, x. by rewrite Nat.sub_diag. }
  revert n st. induction items as [|it items IH]; intros n st Hok Hrun; cbn in Hrun.
  - injection Hrun as <-. by rewrite Nat.add_0_r.
  - res_inv. cbn [length]. rewrite Nat.add_succ_r, <- Nat.add_succ_l.
    refine (IH _ _ _ Hrun). cbn [matches]. apply matches_ok_step; [done|].
    apply Forall_forall. intros pr Hin.
    destruct (Hrange _ _ 0 pr Hin) as (_ & A & x & HA & Hx & Hl).
    rewrite Nat.sub_0_r in HA. by exists A, x.
Qed.

(** (C29) Safety: without [-omitauth], a run never panics, whatever the
    file system and the parsers return.  The loaders return or call
    [fatal], [substitute] and [subLine] cannot panic, and
    [history.Items[burp]] (line 181) is always in range because every key
    of [matches] is the index of an item. *)
Theorem main_no_panic `{MapIter} `{UrlParser} `{KeyIter} `{!KeyIterOk} (w : world) (fl : flags)
    (args : list string) :
  omitAuth fl = false -> no_panic (main w fl args) = true.
Proof.
  intros Ho. unfold main, main_phases.
  apply bind_no_panic; [|intros ? _; unfold replay; by destruct (doReplay fl)].
  apply bind_no_panic;
    [|intros [[??]?] _; apply bind_no_panic; [unfold emit; by repeat case_match | done]].
  unfold correlate.
  apply bind_no_panic; [unfold check_args; by repeat case_match | intros ? _].
  apply bind_no_panic; [auto with corr | intros apis _].
  apply bind_no_panic; [by case_bool_decide | intros ? _].
  apply bind_no_panic; [auto with corr | intros hist _].
  do 2 (apply bind_no_panic; [by destruct (Nat.ltb _ _) | intros ? _]).
  do 2 (apply bind_no_panic; [auto with corr | intros ? _]).
  apply bind_no_panic; [apply match_phase_no_panic | intros st Hst].
  apply bind_no_panic; [|done]. apply subst_phase_no_panic; [done|].
  apply Forall_forall. intros k Hk. rewrite (key_iter_perm (matches st)) in Hk.
  apply list_elem_of_fmap in Hk as ([k' ps] & -> & Hin). apply elem_of_map_to_list in Hin.
  rewrite (match_phase_lookup _ _ _ _ _ _ _ Hst) in Hin by (intros; apply lookup_empty).
  rewrite decide_False, Nat.sub_0_r in Hin by lia. cbn.
  destruct (Items hist !! k') eqn:E; [|done]. by eapply lookup_lt_Some.
Qed.

(** Every hit of [match_apis], counted from [n], is the first matching
    path [find_path] finds in its API. *)
Lemma match_apis_find (fl : flags) (p : string) (apis : list API) (n : nat) (pr : Pair) :
  pr ∈ match_apis fl p apis n ->
  n <= api pr /\ exists A, apis !! (api pr - n) = Some A /\ find_path fl p (Paths A) 0 = Some (path pr).
Proof.
  revert n. induction apis as [|A0 rest IH]; intros n; cbn [match_apis]; [by intros ?%elem_of_nil|].
  assert (pr ∈ match_apis fl p rest (S n) ->
          n <= api pr /\ exists A, (A0 :: rest) !! (api pr - n) = Some A /\
                                   find_path fl p (Paths A) 0 = Some (path pr)) as Hrest.
  { intros (Hn & A & HA & Hf)%IH. split; [lia|]. exists A.
    by replace (api pr - n) with (S (api pr - S n)) by lia. }
  destruct (find_path fl p (Paths A0) 0) as [k|] eqn:Hk; [|exact Hrest].
  rewrite elem_of_cons. intros [-> | Hin]; [|by apply Hrest].
  cbn. split; [lia|]. exists A0. by rewrite Nat.sub_diag.
Qed.

(** (C34) Every correlation is a literal occurrence: when the match phase
    records item [b] for a hit [(a, i)], the path [i] of API [a] occurs in
    the item's path as normalised by [left2right].  With C1, a templated
    path such as [/widgets/{widgetId}/info] is correlated only with Burp
    paths that contain the braces themselves after normalisation. *)
Theorem correlation_is_occurrence `{MapIter} `{UrlParser} (fl : flags) from apis
    (items : list item) (st : match_state) b ps pr :
  match_phase fl from apis items 0 (mk_match_state 0 ∅) = Ok st ->
  matches st !! b = Some ps -> pr ∈ ps ->
  exists it it' A x, items !! b = Some it /\ substitute fl (left2right from) it = Ok it' /\
    apis !! api pr = Some A /\ Paths A !! path pr = Some x /\
    exists p r, Path it' = p +:+ x +:+ r.
Proof.
  intros Hrun Hb Hin.
  rewrite (match_phase_lookup _ _ _ _ _ _ _ Hrun) in Hb by (intros; apply lookup_empty).
  rewrite decide_False, Nat.sub_0_r in Hb by lia.
  destruct (items !! b) as [it|] eqn:Hit; [|done]. cbn in Hb. unfold expected_at in Hb.
  destruct (substitute fl (left2right from) it) as [it'| |] eqn:Hs; [|done|done].
  assert (pr ∈ match_apis fl (Path it') apis 0) as Hm.
  { destruct (match_apis fl (Path it') apis 0) as [|q qs]; [done|]. by simplify_eq. }
  destruct (match_apis_find _ _ _ _ _ Hm) as (_ & A & HA & Hf). rewrite Nat.sub_0_r in HA.
  destruct (find_path_range _ _ _ _ _ Hf) as (_ & x & Hx & _ & Hmx). rewrite Nat.sub_0_r in Hx.
  exists it, it', A, x. split_and!; try done. by apply match_occurs in Hmx.
Qed.

(** (C26) The replay phase is a distinct failure: a run ends in the
    "replay not yet implemented" exit of line 233 exactly when [-replay]
    is set and every earlier phase, the emit phase included, went through;
    no other site of [fatal] gives it.  Every run with [-replay] fails. *)
Theorem replay_unimplemented `{MapIter} `{UrlParser} `{KeyIter} (w : world) (fl : flags)
    (args : list string) :
  (main w fl args = Fatal ErrReplayUnimplemented <->
     doReplay fl = true /\ is_ok (main_phases w fl args) = true) /\
  (doReplay fl = true -> is_ok (main w fl args) = false).
Proof.
  unfold main. destruct (main_phases w fl args) as [o|e|p] eqn:Hm; cbn; unfold replay.
  - destruct (doReplay fl); cbn; naive_solver.
  - split; [|done]. split; [|by intros [_ ?]]. intros [= ->]. exfalso.
    unfold main_phases in Hm.
    destruct (correlate w fl args) as [[[st hist] fut]|e'|] eqn:Hc; cbn in Hm; try discriminate.
    + unfold emit in Hm. by repeat case_match.
    + injection Hm as ->. by pose proof (avoids_Fatal _ _ _ (correlate_avoids w fl args) Hc).
  - naive_solver.
Qed.

(** (C14) The JSON encoder's error is fatal, after the match and
    substitute phases: a run stops at line 223 exactly when [-json] is
    set, everything up to the substitute phase went through, and
    [enc.Encode] fails on the correlated items; no earlier site of
    [fatal] gives this exit, and without [-json] it never happens. *)
Theorem main_phases_encode_error `{MapIter} `{UrlParser} `{KeyIter} (w : world) (fl : flags)
    (args : list string) :
  main_phases w fl args = Fatal ErrJsonEncode <->
  emitJSON fl = true /\
  exists st hist fut, correlate w fl args = Ok (st, hist, fut) /\ encode w fut = false.
Proof.
  unfold main_phases.
  destruct (correlate w fl args) as [[[st hist] fut]|e|p] eqn:Hc; cbn.
  - unfold emit. rewrite copy_items_id.
    destruct (emitJSON fl), (encode w fut) eqn:He; cbn; split;
      try (intros (? & ? & ? & ? & [= <- <- <-] & ?); congruence); try discriminate.
    intros _. split; [done|]. by exists st, hist, fut.
  - split; [|by intros (_ & ? & ? & ? & ? & _)]. intros [= ->].
    by pose proof (avoids_Fatal _ _ _ (correlate_avoids w fl args) Hc).
  - split; [discriminate | by intros (_ & ? & ? & ? & ? & _)].
Qed.

(** (C1) Normalisation only rewrites names: the match phase normalises
    every item with [left2right from] (line 122), which replaces the
    names of [from] by their values.  For an item whose path segments
    contain no name of [from], such as a captured path holding only
    concrete identifiers, the hits recorded are those of the captured
    path itself: a template such as [/widgets/{widgetId}/info] can only
    correlate literally, never through the identifier databases. *)
Theorem normalise_keeps_concrete_path `{MapIter} `{!MapIterOk} `{UrlParser} (fl : flags) from
    apis (items : list item) (st : match_state) b it base :
  match_phase fl from apis items 0 (mk_match_state 0 ∅) = Ok st ->
  items !! b = Some it -> escaped_path (Path it) = Some base ->
  (forall k v seg, from !! k = Some v -> seg ∈ split base slash -> index seg k = None) ->
  matches st !! b = match match_apis fl base apis 0 with [] => None | ps => Some ps end.
Proof.
  intros Hrun Hit Hb Habs.
  rewrite (match_phase_lookup _ _ _ _ _ _ _ Hrun) by (intros; apply lookup_empty).
  rewrite decide_False, Nat.sub_0_r, Hit by lia. cbn. unfold expected_at.
  rewrite (substitute_ok fl (left2right from) it base Hb).
  assert (map (left2right from) (split base slash) = split base slash) as Hid.
  { rewrite <- (map_id (split base slash)) at 2. apply map_ext_in. intros seg Hseg.
    apply left2right_fold_absent. intros [k v] Hkv%elem_of_map_iter.
    apply (Habs k v seg Hkv). by apply list_elem_of_In. }
  rewrite Hid, split_concat. by destruct (skipBody fl), (b64 fl).
Qed.

(** (C27) Credential rewrite: without [-omitauth], every line of the
    rewritten request (its [Body] under [-b64], its [Raw] text otherwise)
    that starts with ["Authorization:"] or ["Cookie:"] carries the value of
    [-auth] or [-cookie]: no old credential reaches the replayed request,
    whatever the substitution did. *)
Theorem convert_credentials `{MapIter} `{UrlParser} (fl : flags) tab (it it' : item) line :
  omitAuth fl = false -> no_nl (authHeader fl) -> no_nl (cookieHeader fl) ->
  convert fl tab it = Ok it' ->
  In line (split (if b64 fl then Body (Request it') else Raw (Request it')) nl) ->
  (has_prefix line "Authorization:" = true -> line = "Authorization:" +:+ " " +:+ authHeader fl) /\
  (has_prefix line "Cookie:" = true -> line = "Cookie:" +:+ " " +:+ cookieHeader fl).
Proof.
  intros Ho Ha Hc Hconv. unfold convert in Hconv. rewrite Ho in Hconv.
  apply bind_eq_Ok in Hconv as (it0 & _ & Hconv).
  destruct (b64 fl); injection Hconv as <-; cbn; by apply credential_lines.
Qed.

(** ** Witnesses *)

Lemma match_phase_matches_witness :
  exists st, match_phase scenario_flags ∅ [demo_api; demo_api] demo_items 0 (mk_match_state 0 ∅) = Ok st /\
    forall b, matches st !! b = demo_items !! b ≫= expected_at scenario_flags ∅ [demo_api; demo_api].
Proof.
  eexists. split; [vm_compute; reflexivity|].
  apply match_phase_matches. vm_compute. reflexivity.
Defined.

Lemma match_phase_path_total_witness :
  exists st, match_phase scenario_flags ∅ [demo_api; demo_api] demo_items 0 (mk_match_state 0 ∅) = Ok st /\
    pathCount st = 4.
Proof.
  eexists. split; [vm_compute; reflexivity|].
  rewrite (match_phase_path_total scenario_flags ∅ [demo_api; demo_api] demo_items); [reflexivity|].
  vm_compute. reflexivity.
Defined.

Lemma normalise_keeps_concrete_path_witness :
  let from : gmap string string := {["widgetId" := "abc-123"]} in
  let apis := [mk_api ["/widgets/{widgetId}/info"]] in
  exists st, match_phase scenario_flags from apis [scenario_item] 0 (mk_match_state 0 ∅) = Ok st /\
    [scenario_item] !! 0%nat = Some scenario_item /\
    escaped_path (Path scenario_item) = Some "/svc/v2/widgets/abc-123/info" /\
    (forall k v seg, from !! k = Some v -> seg ∈ split "/svc/v2/widgets/abc-123/info" slash ->
       index seg k = None) /\
    matches st !! 0%nat = None.
Proof.
  intros from apis.
  destruct (match_phase scenario_flags from apis [scenario_item] 0 (mk_match_state 0 ∅))
    as [st| |] eqn:Hrun; [|vm_compute in Hrun; discriminate..].
  assert ([scenario_item] !! 0%nat = Some scenario_item) as Hit by reflexivity.
  assert (escaped_path (Path scenario_item) = Some "/svc/v2/widgets/abc-123/info") as Hb
    by reflexivity.
  assert (forall k v seg, from !! k = Some v -> seg ∈ split "/svc/v2/widgets/abc-123/info" slash ->
            index seg k = None) as Habs.
  { intros k v seg [<- _]%lookup_singleton_Some Hseg. vm_compute in Hseg.
    repeat (apply elem_of_cons in Hseg as [-> | Hseg]; [vm_compute; reflexivity|]).
    by apply elem_of_nil in Hseg. }
  exists st. split_and!; [reflexivity | exact Hit | exact Hb | exact Habs |].
  rewrite (normalise_keeps_concrete_path scenario_flags from apis _ st _ _ _ Hrun Hit Hb Habs).
  vm_compute. reflexivity.
Defined.

Lemma main_phases_key_order_witness :
  exists o1 o2,
    @main_phases _ _ key_iter_sorted demo_world scenario_flags ["a.json"; "b.json"] = Ok o1 /\
    @main_phases _ _ key_iter_rev demo_world scenario_flags ["a.json"; "b.json"] = Ok o2 /\
    future o1 ≡ₚ future o2 /\ matchCount o1 = 2 /\ matchCount o2 = 2.
Proof.
  eexists.
  assert (@main_phases _ _ key_iter_sorted demo_world scenario_flags ["a.json"; "b.json"] =
          Ok (mk_outcome 2 3 4 _ _)) as H1 by (vm_compute; reflexivity).
  destruct (@main_phases_key_order _ _ key_iter_sorted key_iter_rev key_iter_sorted_ok key_iter_rev_ok
              demo_world (fun _ _ _ => eq_refl) scenario_flags ["a.json"; "b.json"] _ H1)
    as (o2 & H2 & Hp & Hm & _).
  exists o2. split; [exact H1 | split; [exact H2 | split; [exact Hp | split; [reflexivity | ]]]].
  rewrite <- Hm. reflexivity.
Defined.

Lemma omitauth_replay_rejected_witness :
  omitAuth omit_replay_flags = true /\ doReplay omit_replay_flags = true /\
  ["api.json"] <> [] /\ check_args omit_replay_flags ["api.json"] = Fatal ErrReplayAuth.
Proof.
  assert (["api.json"] <> []) as Hne by discriminate.
  split; [reflexivity | split; [reflexivity | split; [exact Hne |]]].
  exact (omitauth_replay_rejected omit_replay_flags _ eq_refl eq_refl Hne).
Defined.

Lemma convert_appends_two_newlines_witness :
  noSub nosub_flags = true /\ omitAuth nosub_flags = false /\ b64 nosub_flags = false /\
  (forall line, In line (split (Raw (Request scenario_item)) nl) ->
     has_prefix line "Authorization:" = false /\ has_prefix line "Cookie:" = false) /\
  convert nosub_flags ∅ scenario_item =
    Ok (set_raw (Raw (Request scenario_item) +:+ newline +:+ newline) scenario_item).
Proof.
  assert (forall line, In line (split (Raw (Request scenario_item)) nl) ->
            has_prefix line "Authorization:" = false /\ has_prefix line "Cookie:" = false) as Hl.
  { vm_compute. intros line [<- | []]. split; reflexivity. }
  split; [reflexivity | split; [reflexivity | split; [reflexivity | split; [exact Hl |]]]].
  exact (convert_appends_two_newlines nosub_flags ∅ scenario_item eq_refl eq_refl eq_refl Hl).
Defined.

Lemma replay_unimplemented_witness :
  doReplay replay_flags = true /\ is_ok (main_phases scenario_world replay_flags ["api.json"]) = true /\
  main scenario_world replay_flags ["api.json"] = Fatal ErrReplayUnimplemented.
Proof.
  assert (doReplay replay_flags = true /\
          is_ok (main_phases scenario_world replay_flags ["api.json"]) = true) as H
    by (split; vm_compute; reflexivity).
  split; [exact (proj1 H) | split; [exact (proj2 H) |]].
  exact (proj2 (proj1 (replay_unimplemented scenario_world replay_flags ["api.json"])) H).
Defined.

Lemma main_phases_encode_error_witness :
  emitJSON scenario_flags = true /\
  main_phases closed_stdout_world scenario_flags ["api.json"] = Fatal ErrJsonEncode.
Proof.
  assert (emitJSON scenario_flags = true /\
          exists st hist fut, correlate closed_stdout_world scenario_flags ["api.json"] =
            Ok (st, hist, fut) /\ encode closed_stdout_world fut = false) as H.
  { split; [reflexivity|]. do 3 eexists. split; [vm_compute; reflexivity | reflexivity]. }
  split; [exact (proj1 H) |].
  exact (proj2 (main_phases_encode_error closed_stdout_world scenario_flags ["api.json"]) H).
Defined.

Lemma convert_credentials_witness :
  let it' := set_raw ("GET /a HTTP/1.1" +:+ newline +:+ "Authorization: Bearer z" +:+ newline +:+
                      "Cookie: s=1" +:+ newline +:+ newline) cred_item in
  convert nosub_flags ∅ cred_item = Ok it' /\
  (has_prefix "Authorization: Bearer z" "Authorization:" = true ->
   "Authorization: Bearer z" = "Authorization:" +:+ " " +:+ authHeader nosub_flags) /\
  (has_prefix "Authorization: Bearer z" "Cookie:" = true ->
   "Authorization: Bearer z" = "Cookie:" +:+ " " +:+ cookieHeader nosub_flags).
Proof.
  intros it'. assert (convert nosub_flags ∅ cred_item = Ok it') as Hc by (vm_compute; reflexivity).
  split; [exact Hc|].
  apply (convert_credentials nosub_flags ∅ cred_item it' "Authorization: Bearer z");
    [reflexivity | reflexivity | reflexivity | exact Hc | vm_compute; right; left; reflexivity].
Defined.

Lemma match_phase_wf_witness :
  matches_ok 0 [demo_api] (matches (mk_match_state 0 ∅)) /\
  exists st', match_phase default_flags ∅ [demo_api] demo_items 0 (mk_match_state 0 ∅) = Ok st' /\
              matches_ok (0 + length demo_items) [demo_api] (matches st').
Proof.
  assert (matches_ok 0 [demo_api] (matches (mk_match_state 0 ∅))) as H0 by apply map_Forall_empty.
  split; [exact H0|].
  destruct (match_phase default_flags ∅ [demo_api] demo_items 0 (mk_match_state 0 ∅))
    as [st'| |] eqn:E; [|vm_compute in E; discriminate..].
  exists st'. split; [reflexivity|].
  exact (match_phase_wf default_flags ∅ [demo_api] demo_items 0 _ st' H0 E).
Defined.

Lemma main_no_panic_witness :
  omitAuth nosub_flags = false /\ no_panic (main demo_world nosub_flags ["api.json"]) = true.
Proof.
  assert (omitAuth nosub_flags = false) as Ho by reflexivity.
  split; [exact Ho | exact (main_no_panic demo_world nosub_flags ["api.json"] Ho)].
Defined.

Lemma correlation_is_occurrence_witness :
  exists st, match_phase default_flags ∅ [demo_api] demo_items 0 (mk_match_state 0 ∅) = Ok st /\
    matches st !! 0 = Some [mk_pair 0 1] /\ mk_pair 0 1 ∈ [mk_pair 0 1] /\
    exists it it' A x, demo_items !! 0 = Some it /\
      substitute default_flags (left2right ∅) it = Ok it' /\
      [demo_api] !! api (mk_pair 0 1) = Some A /\ Paths A !! path (mk_pair 0 1) = Some x /\
      exists p r, Path it' = p +:+ x +:+ r.
Proof.
  destruct (match_phase default_flags ∅ [demo_api] demo_items 0 (mk_match_state 0 ∅))
    as [st| |] eqn:E; [|vm_compute in E; discriminate..].
  assert (matches st !! 0 = Some [mk_pair 0 1]) as Hb.
  { vm_compute in E. injection E as <-. vm_compute. reflexivity. }
  assert (mk_pair 0 1 ∈ [mk_pair 0 1]) as Hin by constructor.
  exists st. split_and!; [reflexivity | exact Hb | exact Hin |].
  exact (correlation_is_occurrence default_flags ∅ [demo_api] demo_items st 0 _ _ E Hb Hin).
Defined.

Lemma main_phases_refines_witness :
  exists o, load_apis demo_world ["api.json"] = Ok [demo_api] /\
    load_burp demo_world (burpName nosub_flags) (b64 nosub_flags) = Ok (mk_history demo_items) /\
    ingestDb demo_world (fromName nosub_flags) = Ok ∅ /\
    ingestDb demo_world (toName nosub_flags) = Ok ∅ /\
    main_phases demo_world nosub_flags ["api.json"] = Ok o /\
    correlated nosub_flags ∅ ∅ [demo_api] demo_items (future o) /\ matchCount o = length (future o) /\
    json o = (if emitJSON nosub_flags then Some (future o) else None).
Proof.
  assert (load_apis demo_world ["api.json"] = Ok [demo_api]) as Ha by reflexivity.
  assert (load_burp demo_world (burpName nosub_flags) (b64 nosub_flags) = Ok (mk_history demo_items))
    as Hb by reflexivity.
  assert (ingestDb demo_world (fromName nosub_flags) = Ok ∅) as Hf by reflexivity.
  assert (ingestDb demo_world (toName nosub_flags) = Ok ∅) as Ht by reflexivity.
  destruct (main_phases demo_world nosub_flags ["api.json"]) as [o| |] eqn:E;
    [|vm_compute in E; discriminate..].
  exists o. refine (conj Ha (conj Hb (conj Hf (conj Ht (conj eq_refl _))))).
  exact (main_phases_refines demo_world nosub_flags ["api.json"] _ _ _ _ o Ha Hb Hf Ht E).
Defined.
